(** * endpoint_monitor.py: a shallow embedding and its verification

    The program probes a list of HTTP endpoints, classifies every probe
    as UP or DOWN, files the results per domain and reports the
    availability percentage of every domain.

    Python values are modelled as follows.
    - [int] is [Z]; [float] is an IEEE 754 binary64 value, [spec_float]
      with precision 53 and maximal exponent 1024, so that the float
      arithmetic of the program is computed bit for bit;
    - [str] is [string], read as a sequence of code points below 256;
    - a [dict] with [str] keys is a [gmap string _];
    - a call that may raise returns a [py_result];
    - the network, the clock and the moment a signal arrives are inputs
      of the model. *)

From Stdlib Require Import ZArith Lia Bool List String Ascii.
From Stdlib Require Import Floats.SpecFloat.
From stdpp Require Import gmap strings list fin_maps.

Local Open Scope Z_scope.

(** ** Exceptions and results *)

(** The exceptions that can cross the functions of the program.  The
    last three derive from [BaseException] only, the others from
    [Exception]. *)
Inductive exn : Type :=
  | ClientConnectorError      (* connection refused, DNS failure *)
  | ClientSSLError            (* TLS failure *)
  | ClientResponseError       (* malformed response *)
  | TimeoutError              (* the ClientTimeout expired *)
  | InvalidURL                (* the client could not parse the URL *)
  | ValueError
  | OverflowError
  | ZeroDivisionError
  | CancelledError
  | KeyboardInterrupt
  | SystemExit.

(** [isinstance(e, Exception)]: what [except Exception] catches. *)
Definition is_Exception (e : exn) : bool :=
  match e with
  | CancelledError | KeyboardInterrupt | SystemExit => false
  | _ => true
  end.

Inductive py_result (A : Type) : Type :=
  | Ok (a : A)
  | Raise (e : exn).
Arguments Ok {A} a.
Arguments Raise {A} e.

Definition py_bind {A B} (x : py_result A) (k : A -> py_result B) : py_result B :=
  match x with
  | Ok a => k a
  | Raise e => Raise e
  end.

Notation "'let*' x ':=' c 'in' k" := (py_bind c (fun x => k))
  (at level 10, x name, c at level 100, k at level 200).

Definition returns {A} (x : py_result A) : Prop := exists a, x = Ok a.

(** ** Python floats *)

Module Float.

Definition prec : Z := 53.
Definition emax : Z := 1024.

Definition inf : spec_float := S754_infinity false.

(** [float(n)] for an [int]; exact for |n| < 2^53. *)
Definition of_int (n : Z) : spec_float := binary_normalize prec emax n 0 false.

Definition mul : spec_float -> spec_float -> spec_float := SFmul prec emax.
Definition sub : spec_float -> spec_float -> spec_float := SFsub prec emax.
Definition ltb : spec_float -> spec_float -> bool := SFltb.

(** [a / b] on two [int]s.  Python rounds the exact quotient once.  The
    division of [SFdiv] takes any two positive mantissas, so it is run
    on the integers themselves, with exponent 0. *)
Definition int_operand (n : Z) : spec_float :=
  match n with
  | Z0 => S754_zero false
  | Zpos p => S754_finite false p 0
  | Zneg p => S754_finite true p 0
  end.

Definition int_truediv (a b : Z) : py_result spec_float :=
  if b =? 0 then Raise ZeroDivisionError
  else Ok (SFdiv prec emax (int_operand a) (int_operand b)).

(** Round half to even of [m * 2^e], for a positive mantissa. *)
Definition round_half_even (m : positive) (e : Z) : Z :=
  match e with
  | Zneg p =>
      let d := 2 ^ Zpos p in
      let q := Zpos m / d in
      let r := Zpos m mod d in
      match 2 * r ?= d with
      | Lt => q
      | Gt => q + 1
      | Eq => if Z.even q then q else q + 1
      end
  | _ => Zpos m * 2 ^ e
  end.

(** [round(x)] with one argument, on a float: the nearest [int], ties
    to even; it raises on an infinity or a NaN. *)
Definition round (x : spec_float) : py_result Z :=
  match x with
  | S754_zero _ => Ok 0
  | S754_finite s m e =>
      Ok (if s then - round_half_even m e else round_half_even m e)
  | S754_infinity _ => Raise OverflowError
  | S754_nan => Raise ValueError
  end.

(** The value of a float is below the integer [n]: [-inf], a zero when
    [0 < n], and a finite float [m * 2^e] or [- m * 2^e] whose value is
    below [n], the comparison being written without fractions.  A NaN and
    [+inf] are below nothing. *)
Definition below (x : spec_float) (n : Z) : Prop :=
  match x with
  | S754_nan => False
  | S754_infinity s => s = true
  | S754_zero _ => 0 < n
  | S754_finite true m e =>
      if 0 <=? e then - (Zpos m * 2 ^ e) < n else - Zpos m < n * 2 ^ (- e)
  | S754_finite false m e =>
      if 0 <=? e then Zpos m * 2 ^ e < n else Zpos m < n * 2 ^ (- e)
  end.

(** A decimal literal [num / den] with [num] and [den] below 2^53, as
    499.999 is 499999 / 1000: the float nearest to the quotient. *)
Definition literal (num den : Z) : spec_float :=
  SFdiv prec emax (of_int num) (of_int den).

(** [m * 2^e] is below [2^K] in magnitude. *)
Definition fits (K m e : Z) : Prop := 0 <= m /\ e <= K /\ m < 2 ^ (K - e).

(** A zero or a finite float with a magnitude below [2^K]. *)
Definition sf_fits (K : Z) (x : spec_float) : Prop :=
  match x with
  | S754_zero _ => True
  | S754_finite _ m e => fits K (Zpos m) e
  | _ => False
  end.

End Float.

(** A number that is an [int] or a [float], as the operand of [round]
    in [get_availability_stats]. *)
Inductive pynum : Type :=
  | PyInt (n : Z)
  | PyFloat (x : spec_float).

Definition py_round (v : pynum) : py_result Z :=
  match v with
  | PyInt n => Ok n
  | PyFloat x => Float.round x
  end.

(** ** urllib.parse.urlparse(url).netloc *)

Module Url.

Definition code (c : ascii) : nat := nat_of_ascii c.

(** The characters '\x00' to ' ' that [urlsplit] strips on the left. *)
Definition is_c0_or_space (c : ascii) : bool := (code c <=? 32)%nat.

(** Tab, line feed and carriage return, removed wherever they are. *)
Definition is_unsafe (c : ascii) : bool :=
  ((code c =? 9) || (code c =? 10) || (code c =? 13))%nat.

Definition is_alpha (c : ascii) : bool :=
  ((65 <=? code c) && (code c <=? 90) || (97 <=? code c) && (code c <=? 122))%nat.

Definition is_digit (c : ascii) : bool :=
  ((48 <=? code c) && (code c <=? 57))%nat.

(** [scheme_chars]: letters, digits and "+-.". *)
Definition is_scheme_char (c : ascii) : bool :=
  is_alpha c || is_digit c
  || ((code c =? 43) || (code c =? 45) || (code c =? 46))%nat.

Definition is_char (n : nat) (c : ascii) : bool := (code c =? n)%nat.

Definition colon := 58%nat.
Definition slash := 47%nat.
Definition question := 63%nat.
Definition hash := 35%nat.
Definition lbracket := 91%nat.
Definition rbracket := 93%nat.
Definition at_sign := 64%nat.

(** '/', '?' or '#': the characters that end the netloc. *)
Definition is_delim (c : ascii) : bool :=
  is_char slash c || is_char question c || is_char hash c.

Fixpoint lstrip (l : list ascii) : list ascii :=
  match l with
  | c :: l' => if is_c0_or_space c then lstrip l' else l
  | [] => []
  end.

(** [(l[:i], l[i+1:])] for the first [i] with [p l[i]], when there is one. *)
Fixpoint split_at (p : ascii -> bool) (l : list ascii)
  : option (list ascii * list ascii) :=
  match l with
  | [] => None
  | c :: l' =>
      if p c then Some ([], l')
      else match split_at p l' with
           | Some (a, b) => Some (c :: a, b)
           | None => None
           end
  end.

(** [l[:i]] for the first [i] with [p l[i]], the whole of [l] when there
    is none: the part of [_splitnetloc] that [netloc] keeps. *)
Fixpoint take_until (p : ascii -> bool) (l : list ascii) : list ascii :=
  match l with
  | [] => []
  | c :: l' => if p c then [] else c :: take_until p l'
  end.

(** The url that is left once a scheme has been split off. *)
Definition strip_scheme (u : list ascii) : list ascii :=
  match split_at (is_char colon) u with
  | Some (c :: s, rest) =>
      if is_alpha c && forallb is_scheme_char (c :: s) then rest else u
  | _ => u
  end.

Definition dot := 46%nat.
Definition percent := 37%nat.
Definition zero := 48%nat.
Definition letter_v := 118%nat.
Definition line_feed := 10%nat.

Definition is_empty (s : list ascii) : bool :=
  match s with
  | [] => true
  | _ => false
  end.

(** [c.isascii()] *)
Definition is_ascii (c : ascii) : bool := (code c <? 128)%nat.

(** [s.partition(sep)] for a separator of one character: the text before
    its first occurrence, whether it occurs, and the text after it. *)
Definition partition (sep : nat) (s : list ascii) : list ascii * bool * list ascii :=
  match split_at (is_char sep) s with
  | Some (before, after) => (before, true, after)
  | None => (s, false, [])
  end.

(** [s.rpartition(sep)[2]]: the text after the last occurrence, the
    whole of [s] when there is none. *)
Definition after_last (sep : nat) (s : list ascii) : list ascii :=
  rev (take_until (is_char sep) (rev s)).

(** [s.split(sep)] *)
Fixpoint split (sep : nat) (s : list ascii) : list (list ascii) :=
  match s with
  | [] => [[]]
  | c :: s' =>
      if is_char sep c then [] :: split sep s'
      else match split sep s' with
           | part :: parts => (c :: part) :: parts
           | [] => [[c]]
           end
  end.

(** *** ipaddress.ip_address on a str

    The functions of the module [ipaddress] that [urlsplit] reaches, as
    CPython 3.11 has them; [None] stands for the [AddressValueError] or
    [ValueError] that the function raises. *)
Module IpAddress.

Definition is_hex_digit (c : ascii) : bool :=
  is_digit c
  || ((65 <=? code c) && (code c <=? 70) || (97 <=? code c) && (code c <=? 102))%nat.

Definition digit_value (c : ascii) : N :=
  if is_digit c then N.of_nat (code c - 48)
  else if (97 <=? code c)%nat then N.of_nat (code c - 87)
  else N.of_nat (code c - 55).

(** [int(s, base)] on a text of digits of that base. *)
Definition int_of (base : N) (s : list ascii) : N :=
  fold_left (fun acc c => (base * acc + digit_value c)%N) s 0%N.

(** [_BaseV4._parse_octet] *)
Definition parse_octet (octet_str : list ascii) : option N :=
  match octet_str with
  | [] => None
  | c :: _ =>
      if negb (forallb is_ascii octet_str && forallb is_digit octet_str) then None
      else if (3 <? length octet_str)%nat then None
      else if negb (bool_decide (octet_str = ["0"%char])) && is_char zero c then None
      else
        let octet_int := int_of 10 octet_str in
        if (255 <? octet_int)%N then None else Some octet_int
  end.

(** [int.from_bytes(map(_parse_octet, octets), 'big')] *)
Fixpoint from_octets (octets : list (list ascii)) (acc : N) : option N :=
  match octets with
  | [] => Some acc
  | o :: rest =>
      match parse_octet o with
      | Some b => from_octets rest (256 * acc + b)%N
      | None => None
      end
  end.

(** [IPv4Address(address)._ip] *)
Definition ipv4 (address : list ascii) : option N :=
  if existsb (is_char slash) address then None
  else if is_empty address then None
  else
    let octets := split dot address in
    if negb (length octets =? 4)%nat then None
    else from_octets octets 0%N.

Fixpoint strip_zeros (digits : list N) : list N :=
  match digits with
  | d :: rest => if (d =? 0)%N then strip_zeros rest else digits
  | [] => []
  end.

(** ['%x' % n] for [n] below 65536. *)
Definition format_x (n : N) : list ascii :=
  let hex_char (d : N) : ascii :=
    ascii_of_N (if (d <? 10)%N then 48 + d else 87 + d)%N in
  let digits := [n / 4096; (n / 256) mod 16; (n / 16) mod 16]%N in
  map hex_char (strip_zeros digits ++ [n mod 16]%N).

(** [_BaseV6._parse_hextet] *)
Definition parse_hextet (hextet_str : list ascii) : option N :=
  if negb (forallb is_hex_digit hextet_str) then None
  else if (4 <? length hextet_str)%nat then None
  else if is_empty hextet_str then None
  else Some (int_of 16 hextet_str).

(** The loop over [range(1, len(parts) - 1)] that looks for an empty
    part: [inner] holds the parts from index [i] to the last but one. *)
Fixpoint find_skip (i : nat) (inner : list (list ascii)) (skip_index : option nat)
  : option (option nat) :=
  match inner with
  | [] => Some skip_index
  | part :: rest =>
      if is_empty part then
        match skip_index with
        | Some _ => None
        | None => find_skip (S i) rest (Some i)
        end
      else find_skip (S i) rest skip_index
  end.

(** [ip_int <<= 16; ip_int |= _parse_hextet(part)] for the parts given. *)
Fixpoint read_hextets (hextets : list (list ascii)) (ip_int : N) : option N :=
  match hextets with
  | [] => Some ip_int
  | h :: rest =>
      match parse_hextet h with
      | Some v => read_hextets rest (N.lor (N.shiftl ip_int 16) v)
      | None => None
      end
  end.

(** The second half of [_BaseV6._ip_int_from_string], once an IPv4
    suffix has been replaced by two hextets. *)
Definition ipv6_of_parts (parts : list (list ascii)) : option N :=
  if (9 <? length parts)%nat then None
  else
    match find_skip 1 (removelast (tl parts)) None with
    | None => None
    | Some (Some skip_index) =>
        let parts_hi := skip_index in
        let parts_lo := (length parts - skip_index - 1)%nat in
        let first_empty := is_empty (hd [] parts) in
        let last_empty := is_empty (List.last parts []) in
        let parts_hi := if first_empty then (parts_hi - 1)%nat else parts_hi in
        if first_empty && negb (parts_hi =? 0)%nat then None
        else
          let parts_lo := if last_empty then (parts_lo - 1)%nat else parts_lo in
          if last_empty && negb (parts_lo =? 0)%nat then None
          else
            let parts_skipped := (8 - Z.of_nat (parts_hi + parts_lo))%Z in
            if (parts_skipped <? 1)%Z then None
            else
              match read_hextets (firstn parts_hi parts) 0%N with
              | None => None
              | Some ip_int =>
                  read_hextets (skipn (length parts - parts_lo) parts)
                    (N.shiftl ip_int (16 * Z.to_N parts_skipped))
              end
    | Some None =>
        if negb (length parts =? 8)%nat then None
        else if is_empty (hd [] parts) then None
        else if is_empty (List.last parts []) then None
        else read_hextets parts 0%N
    end.

(** [_BaseV6._ip_int_from_string] *)
Definition ipv6_int_from_string (ip_str : list ascii) : option N :=
  if is_empty ip_str then None
  else
    let parts := split colon ip_str in
    if (length parts <? 3)%nat then None
    else
      let last_part := List.last parts [] in
      if existsb (is_char dot) last_part then
        match ipv4 last_part with
        | None => None
        | Some ipv4_int =>
            ipv6_of_parts
              (removelast parts
               ++ [format_x (N.land (N.shiftr ipv4_int 16) 65535);
                   format_x (N.land ipv4_int 65535)])
        end
      else ipv6_of_parts parts.

(** [IPv6Address(address)._ip]; the scope id after a '%' is checked and
    set aside. *)
Definition ipv6 (address : list ascii) : option N :=
  if existsb (is_char slash) address then None
  else
    let '(addr, sep, scope_id) := partition percent address in
    if sep && (is_empty scope_id || existsb (is_char percent) scope_id) then None
    else ipv6_int_from_string addr.

Inductive address : Type :=
  | IPv4Address (ip : N)
  | IPv6Address (ip : N).

Definition ip_address (a : list ascii) : py_result address :=
  match ipv4 a with
  | Some ip => Ok (IPv4Address ip)
  | None =>
      match ipv6 a with
      | Some ip => Ok (IPv6Address ip)
      | None => Raise ValueError
      end
  end.

End IpAddress.

(** [re.match(r"\Av[a-fA-F0-9]+\..+\Z", hostname)]: a 'v', hexadecimal
    digits, a dot, and at least one more character, none a line feed. *)
Definition matches_ipvfuture (hostname : list ascii) : bool :=
  match hostname with
  | c :: rest =>
      let digits := take_until (fun x => negb (IpAddress.is_hex_digit x)) rest in
      is_char letter_v c
      && negb (is_empty digits)
      && match skipn (length digits) rest with
         | d :: more =>
             is_char dot d && negb (is_empty more)
             && forallb (fun x => negb (is_char line_feed x)) more
         | [] => false
         end
  | [] => false
  end.

(** [_check_bracketed_host] *)
Definition check_bracketed_host (hostname : list ascii) : py_result unit :=
  if match hostname with c :: _ => is_char letter_v c | [] => false end then
    if matches_ipvfuture hostname then Ok tt else Raise ValueError
  else
    let* ip := IpAddress.ip_address hostname in
    match ip with
    | IpAddress.IPv4Address _ => Raise ValueError
    | IpAddress.IPv6Address _ => Ok tt
    end.

(** [_check_bracketed_netloc] *)
Definition check_bracketed_netloc (netloc : list ascii) : py_result unit :=
  let hostname_and_port := after_last at_sign netloc in
  let '(before_bracket, have_open_br, bracketed) := partition lbracket hostname_and_port in
  if have_open_br then
    if negb (is_empty before_bracket) then Raise ValueError
    else
      let '(hostname, _, port) := partition rbracket bracketed in
      if negb (is_empty port)
         && negb match port with c :: _ => is_char colon c | [] => false end
      then Raise ValueError
      else check_bracketed_host hostname
  else
    let '(hostname, _, port) := partition colon hostname_and_port in
    check_bracketed_host hostname.

(** [unicodedata.normalize('NFKC', c)] for a character below 256, as code
    points (Unicode 14).  No such character is a combining mark, so the
    normal form of a str of such characters is the concatenation of the
    normal forms of its characters. *)
Definition nfkc (c : ascii) : list N :=
  match N_of_ascii c with
  | 160 => [32]
  | 168 => [32; 776]
  | 170 => [97]
  | 175 => [32; 772]
  | 178 => [50]
  | 179 => [51]
  | 180 => [32; 769]
  | 181 => [956]
  | 184 => [32; 807]
  | 185 => [49]
  | 186 => [111]
  | 188 => [49; 8260; 52]
  | 189 => [49; 8260; 50]
  | 190 => [51; 8260; 52]
  | n => [n]
  end%N.

(** [_checknetloc]: a netloc with a character that is not ASCII must not
    gain a '/', '?', '#', '@' or ':' under NFKC. *)
Definition checknetloc (netloc : list ascii) : py_result unit :=
  if is_empty netloc || forallb is_ascii netloc then Ok tt
  else
    let n :=
      List.filter
        (fun c => negb (is_char at_sign c || is_char colon c
                        || is_char hash c || is_char question c))
        netloc in
    let netloc2 := flat_map nfkc n in
    if bool_decide (map N_of_ascii n = netloc2) then Ok tt
    else if existsb (fun c => existsb (N.eqb c) netloc2) [47; 63; 35; 64; 58]%N
    then Raise ValueError
    else Ok tt.

(** [urlsplit(url).netloc], on the characters of [url], as CPython 3.11
    with its fixes for bracketed hosts has it.  The text between "//"
    and the next '/', '?' or '#' is returned as it is written, unless
    one of the checks raises [ValueError]: a bracket without its
    partner, a pair of brackets that does not hold an IPv6 or IPvFuture
    address in the place of the host, or a character that NFKC turns
    into a delimiter, of which there is none below 256. *)
Definition netloc_chars (url : list ascii) : py_result (list ascii) :=
  let u := List.filter (fun c => negb (is_unsafe c)) (lstrip url) in
  let* netloc :=
    match strip_scheme u with
    | c1 :: c2 :: rest =>
        if is_char slash c1 && is_char slash c2 then
          let netloc := take_until is_delim rest in
          let has_l := existsb (is_char lbracket) netloc in
          let has_r := existsb (is_char rbracket) netloc in
          if has_l && negb has_r || has_r && negb has_l
          then Raise ValueError
          else if has_l && has_r
          then let* _ := check_bracketed_netloc netloc in Ok netloc
          else Ok netloc
        else Ok []
    | _ => Ok []
    end in
  let* _ := checknetloc netloc in
  Ok netloc.

Definition netloc (url : string) : py_result string :=
  let* n := netloc_chars (list_ascii_of_string url) in
  Ok (string_of_list_ascii n).

End Url.

(** ** The data classes *)

Record EndpointConfig : Type := mkEndpointConfig {
  name : string;
  url : string;
  method : string;
  headers : option (gmap string string);
  body : option string
}.

Definition get_domain (self : EndpointConfig) : py_result string :=
  Url.netloc (url self).

(** A [datetime], as microseconds on the local clock. *)
Definition datetime : Type := Z.

Record HealthCheckResult : Type := mkHealthCheckResult {
  endpoint_name : string;
  domain : string;
  response_time_ms : spec_float;
  status_code : Z;
  timestamp : datetime
}.

(** What the module binds when it is imported.  The class body of
    [HealthCheckResult] runs once, then, and [datetime.now()] in it is
    evaluated once: its value becomes the default of [timestamp]. *)
Record module_globals : Type := mkGlobals {
  timestamp_default : datetime
}.

Definition import_module (now : datetime) : module_globals :=
  {| timestamp_default := now |}.

(** The generated [__init__]: [timestamp] is optional. *)
Definition HealthCheckResult_init (G : module_globals)
    (endpoint_name domain : string) (response_time_ms : spec_float)
    (status_code : Z) (timestamp : option datetime) : HealthCheckResult :=
  {| endpoint_name := endpoint_name;
     domain := domain;
     response_time_ms := response_time_ms;
     status_code := status_code;
     timestamp := match timestamp with
                  | Some t => t
                  | None => timestamp_default G
                  end |}.

Definition is_up (self : HealthCheckResult) : bool :=
  (200 <=? status_code self) && (status_code self <? 300)
  && Float.ltb (response_time_ms self) (Float.of_int 500).

(** ** HealthChecker *)

(** [aiohttp.ClientTimeout(total=...)], in seconds. *)
Record ClientTimeout : Type := mkClientTimeout { total : Z }.

(** The keyword arguments of one call of [session.request]. *)
Record RequestCall : Type := mkRequestCall {
  req_method : string;
  req_url : string;
  req_headers : option (gmap string string);
  req_json : option string;
  req_timeout : ClientTimeout
}.

(** What one call of [session.request] comes to: the response arrives
    with a status, and the clock is read inside the [async with] block, or
    an exception is raised. *)
Inductive RequestOutcome : Type :=
  | Response (status : Z) (clock : spec_float)
  | Failure (e : exn).

(** The surroundings of one probe: [time.time()] at dispatch and the
    behaviour of the session. *)
Record ProbeEnv : Type := mkProbeEnv {
  start_clock : spec_float;
  session_request : RequestCall -> RequestOutcome
}.

Record HealthChecker : Type := mkHealthChecker {
  endpoints : list EndpointConfig;
  results : gmap string (list HealthCheckResult);
  timeout : ClientTimeout
}.

Definition HealthChecker_init (endpoints : list EndpointConfig) : HealthChecker :=
  {| endpoints := endpoints;
     results := ∅;
     timeout := {| total := 5 |} |}.

(** [x if x else None] on an optional [str]: [None] and the empty string
    are falsy. *)
Definition if_truthy (x : option string) : option string :=
  match x with
  | Some (String _ _) => x
  | _ => None
  end.

Definition request_of (self : HealthChecker) (endpoint : EndpointConfig) : RequestCall :=
  {| req_method := method endpoint;
     req_url := url endpoint;
     req_headers := headers endpoint;
     req_json := if_truthy (body endpoint);
     req_timeout := timeout self |}.

(** The body of the [try] statement of [check_endpoint]. *)
Definition check_endpoint_try (G : module_globals) (start_time : spec_float)
    (outcome : RequestOutcome) (endpoint : EndpointConfig)
  : py_result HealthCheckResult :=
  match outcome with
  | Response status now =>
      let response_time := Float.mul (Float.sub now start_time) (Float.of_int 1000) in
      let* d := get_domain endpoint in
      Ok (HealthCheckResult_init G (name endpoint) d response_time status None)
  | Failure e => Raise e
  end.

(** [check_endpoint] returns the calls of [session.request] it made and
    its result.  An exception of the [try] body that is an [Exception] is
    handled; the handler calls [get_domain] again. *)
Definition check_endpoint (G : module_globals) (self : HealthChecker)
    (env : ProbeEnv) (endpoint : EndpointConfig)
  : list RequestCall * py_result HealthCheckResult :=
  let start_time := start_clock env in
  let call := request_of self endpoint in
  ([call],
   match check_endpoint_try G start_time (session_request env call) endpoint with
   | Ok r => Ok r
   | Raise e =>
       if is_Exception e then
         let* d := get_domain endpoint in
         Ok (HealthCheckResult_init G (name endpoint) d Float.inf 0 None)
       else Raise e
   end).

(** [await asyncio.gather] on the tasks: the results in the order of the
    tasks, or the exception of a task that raised. *)
Fixpoint gather {A : Type} (tasks : list (py_result A)) : py_result (list A) :=
  match tasks with
  | [] => Ok []
  | t :: ts =>
      let* r := t in
      let* rs := gather ts in
      Ok (r :: rs)
  end.

(** [self.results[result.domain].append(result)] on the defaultdict. *)
Definition record (res : gmap string (list HealthCheckResult)) (r : HealthCheckResult)
  : gmap string (list HealthCheckResult) :=
  <[domain r := default [] (res !! domain r) ++ [r]]> res.

(** The probes of one cycle: probe [i] runs in [env i]. *)
Definition probes (G : module_globals) (self : HealthChecker) (env : nat -> ProbeEnv)
  : list (list RequestCall * py_result HealthCheckResult) :=
  imap (fun i endpoint => check_endpoint G self (env i) endpoint) (endpoints self).

Definition check_all_endpoints (G : module_globals) (env : nat -> ProbeEnv)
    (self : HealthChecker) : py_result HealthChecker :=
  let* rs := gather (map snd (probes G self env)) in
  Ok {| endpoints := endpoints self;
        results := fold_left record rs (results self);
        timeout := timeout self |}.

(** [(up_count / total_count * 100) if total_count > 0 else 0] *)
Definition availability (checks : list HealthCheckResult) : py_result pynum :=
  let up_count := Z.of_nat (length (List.filter is_up checks)) in
  let total_count := Z.of_nat (length checks) in
  if 0 <? total_count then
    let* q := Float.int_truediv up_count total_count in
    Ok (PyFloat (Float.mul q (Float.of_int 100)))
  else Ok (PyInt 0).

(** *** Methods of a HealthChecker

    A method runs on the object [self] and may assign to its
    attributes: it comes to a result, or to the exception that leaves
    it, and to the object as it is then. *)
Module Method.

Definition t (A : Type) : Type := HealthChecker -> py_result A * HealthChecker.

Definition ret {A : Type} (a : A) : t A := fun self => (Ok a, self).

Definition bind {A B : Type} (m : t A) (k : A -> t B) : t B :=
  fun self =>
    match m self with
    | (Ok a, self') => k a self'
    | (Raise e, self') => (Raise e, self')
    end.

(** An expression that reads and writes no attribute of [self]. *)
Definition eval {A : Type} (x : py_result A) : t A := fun self => (x, self).

(** [self.results.items()]: the keys and lists that are stored.  The
    view stores nothing. *)
Definition results_items : t (list (string * list HealthCheckResult)) :=
  fun self => (Ok (map_to_list (results self)), self).

(** [self.results[key]]: [__getitem__] of a [defaultdict(list)] stores
    an empty list under a key that is missing, and returns the list
    under the key. *)
Definition results_getitem (key : string) : t (list HealthCheckResult) :=
  fun self =>
    match results self !! key with
    | Some checks => (Ok checks, self)
    | None =>
        (Ok [], {| endpoints := endpoints self;
                   results := <[key := []]> (results self);
                   timeout := timeout self |})
    end.

(** [checks.append(r)] on the list [checks] that is stored under [key]. *)
Definition stored_append (key : string) (checks : list HealthCheckResult)
    (r : HealthCheckResult) : t unit :=
  fun self =>
    (Ok tt, {| endpoints := endpoints self;
               results := <[key := checks ++ [r]]> (results self);
               timeout := timeout self |}).

End Method.

(** The [for] loop of [get_availability_stats] over the items of
    [self.results], filling the local dict [stats]. *)
Fixpoint stats_loop (items : list (string * list HealthCheckResult))
    (stats : gmap string Z) : Method.t (gmap string Z) :=
  match items with
  | [] => Method.ret stats
  | (d, checks) :: rest =>
      Method.bind (Method.eval (availability checks)) (fun a =>
      Method.bind (Method.eval (py_round a)) (fun v =>
      stats_loop rest (<[d := v]> stats)))
  end.

(** [get_availability_stats] returns its result and the object as the
    call leaves it. *)
Definition get_availability_stats : Method.t (gmap string Z) :=
  Method.bind Method.results_items (fun items => stats_loop items ∅).

(** ** MonitoringService *)

Record MonitoringService : Type := mkMonitoringService {
  service_endpoints : list EndpointConfig;
  health_checker : HealthChecker;
  running : bool
}.

(** [__init__], once the configuration has been parsed. *)
Definition MonitoringService_init (endpoints : list EndpointConfig) : MonitoringService :=
  {| service_endpoints := endpoints;
     health_checker := HealthChecker_init endpoints;
     running := false |}.

(** [run_check_cycle] returns the service as the cycle leaves it and the
    statistics it printed. *)
Definition run_check_cycle (G : module_globals) (env : nat -> ProbeEnv)
    (self : MonitoringService) : py_result (MonitoringService * gmap string Z) :=
  let* hc := check_all_endpoints G env (health_checker self) in
  let* stats := fst (get_availability_stats hc) in
  Ok ({| service_endpoints := service_endpoints self;
         health_checker := snd (get_availability_stats hc);
         running := running self |}, stats).

Definition stop (self : MonitoringService) : MonitoringService :=
  {| service_endpoints := service_endpoints self;
     health_checker := health_checker self;
     running := false |}.

(** Where the coroutine [run] stands: not yet called, at the test of
    [while self.running], suspended in [run_check_cycle], suspended in
    [asyncio.sleep(15)], returned, or left by an exception. *)
Inductive run_pc : Type :=
  | NotStarted
  | LoopTest
  | InCycle
  | Sleeping
  | Returned
  | Raised (e : exn).

(** The service, its coroutine [run], what has been printed, cycle by
    cycle, and the number of cycles started. *)
Record system : Type := mkSystem {
  service : MonitoringService;
  pc : run_pc;
  printed : list (gmap string Z);
  cycles_started : nat
}.

Definition boot (endpoints : list EndpointConfig) : system :=
  {| service := MonitoringService_init endpoints;
     pc := NotStarted;
     printed := [];
     cycles_started := 0%nat |}.

(** [run] moves on to its next point.  [env] is the network that the
    cycle meets when the move completes a cycle. *)
Definition advance (G : module_globals) (env : nat -> ProbeEnv) (s : system) : system :=
  match pc s with
  | NotStarted =>
      {| service := {| service_endpoints := service_endpoints (service s);
                       health_checker := health_checker (service s);
                       running := true |};
         pc := LoopTest; printed := printed s; cycles_started := cycles_started s |}
  | LoopTest =>
      if running (service s)
      then {| service := service s; pc := InCycle; printed := printed s;
              cycles_started := S (cycles_started s) |}
      else {| service := service s; pc := Returned; printed := printed s;
              cycles_started := cycles_started s |}
  | InCycle =>
      match run_check_cycle G env (service s) with
      | Ok (svc, stats) =>
          {| service := svc; pc := Sleeping; printed := printed s ++ [stats];
             cycles_started := cycles_started s |}
      | Raise e =>
          {| service := service s; pc := Raised e; printed := printed s;
             cycles_started := cycles_started s |}
      end
  | Sleeping =>
      {| service := service s; pc := LoopTest; printed := printed s;
         cycles_started := cycles_started s |}
  | Returned | Raised _ => s
  end.

(** Another task or a handler calls [stop] while [run] stands still. *)
Definition call_stop (s : system) : system :=
  {| service := stop (service s); pc := pc s; printed := printed s;
     cycles_started := cycles_started s |}.

Inductive event : Type :=
  | Advance (env : nat -> ProbeEnv)
  | Stop.

Definition step (G : module_globals) (s : system) (ev : event) : system :=
  match ev with
  | Advance env => advance G env s
  | Stop => call_stop s
  end.

Definition exec (G : module_globals) (evs : list event) (s : system) : system :=
  fold_left (step G) evs s.

(** The cycles [run] has completed: each one printed its statistics. *)
Definition cycles_completed (s : system) : nat := length (printed s).

(** ** json.dumps on a str, as aiohttp applies it to the [json] argument *)

Module Json.

Definition dquote : ascii := ascii_of_nat 34.
Definition backslash : ascii := ascii_of_nat 92.

Definition hex_digit (n : nat) : ascii :=
  ascii_of_nat (if (n <? 10)%nat then 48 + n else 87 + n).

(** The replacement of one character, with [ensure_ascii] set. *)
Definition escape (c : ascii) : list ascii :=
  let n := nat_of_ascii c in
  if (n =? 34)%nat then [backslash; dquote]
  else if (n =? 92)%nat then [backslash; backslash]
  else if (n =? 8)%nat then [backslash; "b"%char]
  else if (n =? 12)%nat then [backslash; "f"%char]
  else if (n =? 10)%nat then [backslash; "n"%char]
  else if (n =? 13)%nat then [backslash; "r"%char]
  else if (n =? 9)%nat then [backslash; "t"%char]
  else if ((32 <=? n) && (n <=? 126))%nat then [c]
  else [backslash; "u"%char; "0"%char; "0"%char;
        hex_digit (n / 16); hex_digit (n mod 16)].

Definition dumps_str (s : string) : string :=
  string_of_list_ascii
    (dquote :: flat_map escape (list_ascii_of_string s) ++ [dquote]).

End Json.

(** The body that goes out with a call: aiohttp serialises the [json]
    argument with [json.dumps]; no other argument of the call carries a
    body. *)
Definition body_sent (c : RequestCall) : option string :=
  match req_json c with
  | Some s => Some (Json.dumps_str s)
  | None => None
  end.

(** ** The statements of the specification that are compared with the code *)

Module Spec.

(** [round(100 * up / total)] on the exact quotient, ties upwards. *)
Definition round_half_up (up total : Z) : Z :=
  (2 * (100 * up) + total) / (2 * total).

(** The same, ties to the even neighbour. *)
Definition round_half_even (up total : Z) : Z :=
  let q := (100 * up) / total in
  let r := (100 * up) mod total in
  match 2 * r ?= total with
  | Lt => q
  | Gt => q + 1
  | Eq => if Z.even q then q else q + 1
  end.

Definition default_port (scheme : string) : option string :=
  if String.eqb scheme "http" then Some "80"%string
  else if String.eqb scheme "https" then Some "443"%string
  else None.

(** "host plus port if non-default": the host alone when the url has no
    port or the default port of its scheme. *)
Definition domain (scheme host : string) (port : option string) : string :=
  match port with
  | None => host
  | Some p =>
      if decide (default_port scheme = Some p) then host
      else (host ++ ":" ++ p)%string
  end.

End Spec.

(** ** The states the checker can be in *)

(** The history of a domain: the list under its key, empty when the key
    is absent. *)
Definition bucket (res : gmap string (list HealthCheckResult)) (d : string)
  : list HealthCheckResult :=
  default [] (res !! d).

Definition domain_is (d : string) (r : HealthCheckResult) : bool :=
  bool_decide (domain r = d).

(** The results that one cycle gathers. *)
Definition cycle_results (G : module_globals) (env : nat -> ProbeEnv)
    (self : HealthChecker) : py_result (list HealthCheckResult) :=
  gather (map snd (probes G self env)).

(** [reachable G endpoints log self]: the checker built for [endpoints]
    has run some cycles to their end, which recorded the results [log], in
    this order, and is now [self]. *)
Inductive reachable (G : module_globals) (eps : list EndpointConfig)
  : list HealthCheckResult -> HealthChecker -> Prop :=
  | reachable_init : reachable G eps [] (HealthChecker_init eps)
  | reachable_cycle log self env rs self' :
      reachable G eps log self ->
      cycle_results G env self = Ok rs ->
      check_all_endpoints G env self = Ok self' ->
      reachable G eps (log ++ rs) self'.

(** [percentage up total]: what [get_availability_stats] stores for a
    domain with [total > 0] results, [up] of them UP:
    [round(up / total * 100)], in floats. *)
Definition percentage (up total : Z) : py_result Z :=
  let* q := Float.int_truediv up total in
  Float.round (Float.mul q (Float.of_int 100)).

Definition up_count (checks : list HealthCheckResult) : Z :=
  Z.of_nat (length (List.filter is_up checks)).

Definition total_count (checks : list HealthCheckResult) : Z :=
  Z.of_nat (length checks).


(** No key of the history holds an empty list. *)
Definition no_empty_bucket (res : gmap string (list HealthCheckResult)) : Prop :=
  forall d, res !! d <> Some [].

(** The value of [percentage] where it returns. *)
Definition pct (checks : list HealthCheckResult) : Z :=
  match percentage (up_count checks) (total_count checks) with
  | Ok v => v
  | Raise _ => 0
  end.


(** [produced G self e r]: some probe of [e] returned [r]. *)
Definition produced (G : module_globals) (self : HealthChecker)
    (e : EndpointConfig) (r : HealthCheckResult) : Prop :=
  exists env, snd (check_endpoint G self env e) = Ok r.

(** ** Urls of the usual shape *)

Module UrlShape.
Import Url.






End UrlShape.


(** The system with the flag [running] set to [b] and nothing else
    changed. *)
Definition with_running (b : bool) (s : system) : system :=
  {| service := {| service_endpoints := service_endpoints (service s);
                   health_checker := health_checker (service s);
                   running := b |};
     pc := pc s; printed := printed s; cycles_started := cycles_started s |}.

(** [run] has been told to stop and stands where it starts no cycle
    before it reads the flag. *)
Definition winding_down (s : system) : Prop :=
  running (service s) = false
  /\ (pc s = Sleeping \/ pc s = LoopTest \/ pc s = Returned
      \/ exists e, pc s = Raised e).

(** ** Bounds of float results *)

Module FloatBound.

(** [m * 2^e <= B], for an exponent [e <= 0], written without fractions. *)
Definition under (B m e : Z) : Prop :=
  e <= 0 /\ 0 <= m /\ m <= B * 2 ^ (- e).

(** Some bit that was shifted out is set. *)
Definition inexact (r : shr_record) : bool := shr_r r || shr_s r.

(** The number that the record [r] stands for at exponent [e], which
    lies strictly above [shr_m r * 2^e] when a bit was shifted out, is at
    most [B]. *)
Definition under_rec (B : Z) (r : shr_record) (e : Z) : Prop :=
  e <= 0 /\ 0 <= shr_m r
  /\ shr_m r + (if inexact r then 1 else 0) <= B * 2 ^ (- e).

(** A zero or a positive finite float that is at most [B]. *)
Definition sf_under (B : Z) (x : spec_float) : Prop :=
  match x with
  | S754_zero _ => True
  | S754_finite false m e => under B (Zpos m) e
  | _ => False
  end.

End FloatBound.
(** ** ConfigurationParser *)

(** A value that [yaml.safe_load] can return.  A dict is the list of its
    items in insertion order, with distinct keys.  [PyOther] stands for
    the remaining objects (a date, bytes, a set), none of which can be
    indexed by a [str]. *)
#[warnings="-register-all"] Inductive pyval : Type :=
  | PyNone
  | PyBoolV (b : bool)
  | PyIntV (n : Z)
  | PyFloatV (x : spec_float)
  | PyStr (s : string)
  | PyListV (items : list pyval)
  | PyDictV (items : list (pyval * pyval))
  | PyOther.

(** [d.get(k)] for a [str] key: only a [str] key of the dict equals it. *)
Fixpoint dict_get (k : string) (d : list (pyval * pyval)) : option pyval :=
  match d with
  | [] => None
  | (PyStr k', v) :: rest => if String.eqb k' k then Some v else dict_get k rest
  | _ :: rest => dict_get k rest
  end.

(** An [EndpointConfig] as [parse_config] builds it: the dataclass does
    not check its fields, which hold whatever the file gave. *)
Record RawEndpointConfig : Type := mkRawEndpointConfig {
  raw_name : pyval;
  raw_url : pyval;
  raw_method : pyval;
  raw_headers : pyval;
  raw_body : pyval
}.

Module Config.

(** What [parse_config] and [main] can raise before the loop runs.
    [OtherError] stands for an exception of a class that is not named
    here, given by the name of its class. *)
Inductive error : Type :=
  | ValueError
  | KeyError (key : string)
  | TypeError
  | OSError
  | SystemExit (code : Z)
  | OtherError (class_name : string).

Inductive result (A : Type) : Type :=
  | Return (a : A)
  | Throw (e : error).
Arguments Return {A} a.
Arguments Throw {A} e.

(** What [open], the reading of the file and [yaml.safe_load] come to
    for a path: the value loaded, or the exception raised.
    - [RaisesOSError]: an [OSError] other than [FileNotFoundError], such
      as [PermissionError] or [IsADirectoryError];
    - [RaisesValueError]: a [ValueError] that is no [yaml.YAMLError]: a
      path with a null character, or bytes that do not decode
      ([UnicodeDecodeError] derives from [ValueError]);
    - [RaisesOther]: an exception of any other class, such as
      [MemoryError], [RecursionError] or [KeyboardInterrupt]. *)
Inductive load_outcome : Type :=
  | Loaded (config_data : pyval)
  | RaisesFileNotFoundError
  | RaisesYAMLError
  | RaisesOSError
  | RaisesValueError
  | RaisesOther (class_name : string).

(** [EndpointConfig(name=item['name'], url=item['url'],
    method=item.get('method', 'GET'), headers=item.get('headers'),
    body=item.get('body'))]; the arguments are evaluated in this order. *)
Definition parse_item (item : pyval) : result RawEndpointConfig :=
  match item with
  | PyDictV d =>
      match dict_get "name" d with
      | None => Throw (KeyError "name")
      | Some n =>
          match dict_get "url" d with
          | None => Throw (KeyError "url")
          | Some u =>
              Return {| raw_name := n;
                        raw_url := u;
                        raw_method := default (PyStr "GET") (dict_get "method" d);
                        raw_headers := default PyNone (dict_get "headers" d);
                        raw_body := default PyNone (dict_get "body" d) |}
          end
      end
  | _ => Throw TypeError
  end.

(** The [for] loop over [config_data], appending to [endpoints]. *)
Fixpoint parse_items (items : list pyval) (endpoints : list RawEndpointConfig)
  : result (list RawEndpointConfig) :=
  match items with
  | [] => Return endpoints
  | item :: rest =>
      match parse_item item with
      | Return endpoint => parse_items rest (endpoints ++ [endpoint])
      | Throw e => Throw e
      end
  end.

End Config.

Record ConfigurationParser : Type := mkConfigurationParser {
  config_path : string
}.

(** [parse_config]: the two [except] clauses turn a missing file and a
    YAML error into [sys.exit(1)]; every other exception of the [try]
    block leaves the method. *)
Definition parse_config (self : ConfigurationParser)
    (fs : string -> Config.load_outcome)
  : Config.result (list RawEndpointConfig) :=
  match fs (config_path self) with
  | Config.Loaded (PyListV items) => Config.parse_items items []
  | Config.Loaded _ => Config.Throw Config.ValueError
  | Config.RaisesFileNotFoundError => Config.Throw (Config.SystemExit 1)
  | Config.RaisesYAMLError => Config.Throw (Config.SystemExit 1)
  | Config.RaisesOSError => Config.Throw Config.OSError
  | Config.RaisesValueError => Config.Throw Config.ValueError
  | Config.RaisesOther class_name => Config.Throw (Config.OtherError class_name)
  end.

(** *** Configurations with values of the declared types *)

Definition str_of (v : pyval) : option string :=
  match v with
  | PyStr s => Some s
  | _ => None
  end.

(** A dict from [str] to [str], as a map. *)
Fixpoint str_dict_of (d : list (pyval * pyval)) : option (gmap string string) :=
  match d with
  | [] => Some ∅
  | (PyStr k, PyStr v) :: rest =>
      match str_dict_of rest with
      | Some m => Some (<[k := v]> m)
      | None => None
      end
  | _ => None
  end.

Definition headers_of (v : pyval) : option (option (gmap string string)) :=
  match v with
  | PyNone => Some None
  | PyDictV d =>
      match str_dict_of d with
      | Some m => Some (Some m)
      | None => None
      end
  | _ => None
  end.

Definition body_of (v : pyval) : option (option string) :=
  match v with
  | PyNone => Some None
  | PyStr s => Some (Some s)
  | _ => None
  end.

(** The endpoint of the typed model that a parsed object is, when its
    fields have the types the dataclass declares. *)
Definition typed (c : RawEndpointConfig) : option EndpointConfig :=
  match str_of (raw_name c), str_of (raw_url c), str_of (raw_method c),
        headers_of (raw_headers c), body_of (raw_body c) with
  | Some n, Some u, Some m, Some h, Some b =>
      Some {| name := n; url := u; method := m; headers := h; body := b |}
  | _, _, _, _, _ => None
  end.

Fixpoint typed_all (cs : list RawEndpointConfig) : option (list EndpointConfig) :=
  match cs with
  | [] => Some []
  | c :: rest =>
      match typed c, typed_all rest with
      | Some e, Some es => Some (e :: es)
      | _, _ => None
      end
  end.

(** ** main *)

(** [main] up to the call of [run]: the check of [sys.argv] and the
    construction of the service, which parses the file named by
    [sys.argv[1]]. *)
Definition main_startup (argv : list string) (fs : string -> Config.load_outcome)
  : Config.result (list RawEndpointConfig) :=
  match argv with
  | [_; path] => parse_config {| config_path := path |} fs
  | _ => Config.Throw (Config.SystemExit 1)
  end.

(** ** Shapes of urls, continued *)

Module UrlText.
Import Url.




End UrlText.

(** The key [d] of the history holds a list that is not empty. *)
Definition results_nonempty_at (res : gmap string (list HealthCheckResult))
    (d : string) : Prop :=
  exists c, res !! d = Some c /\ c <> [].

(** [item_config item c]: [item] is a dict with the keys "name" and
    "url", and [c] holds their values, the value of "method" or "GET"
    when the key is absent, and the values of "headers" and "body" or
    [None]. *)
Definition item_config (item : pyval) (c : RawEndpointConfig) : Prop :=
  exists d n u,
    item = PyDictV d
    /\ dict_get "name" d = Some n
    /\ dict_get "url" d = Some u
    /\ c = {| raw_name := n;
              raw_url := u;
              raw_method := default (PyStr "GET") (dict_get "method" d);
              raw_headers := default PyNone (dict_get "headers" d);
              raw_body := default PyNone (dict_get "body" d) |}.

(** The item of a file that gives a name and a url and nothing else. *)
Definition minimal_item (nu : string * string) : pyval :=
  PyDictV [(PyStr "name", PyStr (fst nu)); (PyStr "url", PyStr (snd nu))].

Definition minimal_endpoint (nu : string * string) : EndpointConfig :=
  {| name := fst nu; url := snd nu; method := "GET"; headers := None; body := None |}.

(** ** Sample values *)

Module Sample.

Definition G : module_globals := import_module 1700000000000000.

Definition result (status : Z) (time_ms : spec_float) : HealthCheckResult :=
  HealthCheckResult_init G "api" "example.com" time_ms status None.

Definition orders : EndpointConfig :=
  mkEndpointConfig "orders" "https://api.example.com:8080/orders" "GET" None None.

Definition users : EndpointConfig :=
  mkEndpointConfig "users" "https://api.example.com:8080/users" "POST" None (Some "{}").

Definition home : EndpointConfig :=
  mkEndpointConfig "home" "https://www.example.org/" "GET" None None.

(** A network where every request is answered with [status]; the clock
    reads 1000.0 at dispatch and 1000.12 at the answer. *)
Definition answers (status : Z) (i : nat) : ProbeEnv :=
  mkProbeEnv (Float.of_int 1000)
    (fun _ => Response status (Float.literal 100012 100)).

(** A network where every request fails with [x]. *)
Definition fails (x : exn) (i : nat) : ProbeEnv :=
  mkProbeEnv (Float.of_int 1000) (fun _ => Failure x).

Definition checker : HealthChecker := HealthChecker_init [orders; users; home].

Definition one_cycle_results : list HealthCheckResult :=
  Eval vm_compute in
    match cycle_results G (answers 200) checker with
    | Ok rs => rs
    | Raise _ => []
    end.

Definition after_one_cycle : HealthChecker :=
  Eval vm_compute in
    match check_all_endpoints G (answers 200) checker with
    | Ok self => self
    | Raise _ => checker
    end.

(** Forty endpoints of one domain, and a network that answers the
    first 23 of them with 200 and the others with 503. *)
Definition forty : HealthChecker := HealthChecker_init (repeat orders 40).

Definition first_23_up (i : nat) : ProbeEnv :=
  if (i <? 23)%nat then answers 200 i else answers 503 i.

(** An endpoint whose url opens a bracket that is never closed. *)
Definition broken : EndpointConfig :=
  mkEndpointConfig "broken" "http://[" "GET" None None.

(** An endpoint whose body is the empty string. *)
Definition blank : EndpointConfig :=
  mkEndpointConfig "blank" "https://api.example.com:8080/blank" "POST" None
    (Some EmptyString).

(** A probe dispatched at clock [t] seconds and answered with 200. *)
Definition probe_at (t : Z) : ProbeEnv :=
  mkProbeEnv (Float.of_int t) (fun _ => Response 200 (Float.of_int (t + 1))).


(** The service in its first cycle, and in the sleep after it. *)
Definition in_first_cycle : system :=
  exec G [Advance (answers 200); Advance (answers 200)] (boot [orders; users; home]).

Definition in_first_sleep : system :=
  exec G [Advance (answers 200); Advance (answers 200); Advance (answers 200)]
    (boot [orders; users; home]).

End Sample.

(** ** Further sample values *)

Module Fixture.


Definition bare : EndpointConfig :=
  mkEndpointConfig "bare" "localhost:8080" "GET" None None.




End Fixture.

(** * Verification

    ** Binary64 arithmetic: magnitudes and comparison *)

Module FloatFacts.
Import Float.

Lemma digits2_pos_size p : digits2_pos p = Pos.size p.
Proof. induction p; simpl; congruence. Qed.

Lemma Zdigits2_log2 m : 0 < m -> Zdigits2 m = Z.log2 m + 1.
Proof.
  destruct m as [|p|p]; try lia. intros _.
  destruct p; simpl; rewrite ?digits2_pos_size; lia.
Qed.

Lemma Zdigits2_le m k : 0 <= m -> 0 <= k -> m < 2 ^ k -> Zdigits2 m <= k.
Proof.
  intros Hm Hk Hlt. destruct (Z.eq_dec m 0) as [->|Hne]; [simpl; lia|].
  rewrite Zdigits2_log2 by lia.
  apply Z.log2_lt_pow2 in Hlt; lia.
Qed.

Lemma shr_m_of_loc m l : shr_m (shr_record_of_loc m l) = m.
Proof. destruct l as [|[]]; reflexivity. Qed.

Lemma shr_1_m r : 0 <= shr_m r -> shr_m (shr_1 r) = shr_m r / 2.
Proof.
  destruct r as [m r s]; simpl. intros Hm.
  destruct m as [|[p|p|]|p]; simpl; try lia; rewrite <- Z.div2_div; reflexivity.
Qed.

Lemma iter_pos_shr_m p :
  forall r, 0 <= shr_m r ->
    shr_m (SpecFloat.iter_pos shr_1 p r) = shr_m r / 2 ^ Zpos p.
Proof.
  induction p as [p IH|p IH|]; intros r Hr; simpl SpecFloat.iter_pos.
  - assert (H1 : 0 <= shr_m (shr_1 r)) by (rewrite shr_1_m by done; apply Z.div_pos; lia).
    assert (H2 : 0 <= shr_m (SpecFloat.iter_pos shr_1 p (shr_1 r)))
      by (rewrite IH by done; apply Z.div_pos; lia).
    rewrite IH, IH, shr_1_m by done.
    rewrite !Z.div_div by lia. f_equal.
    replace (Z.pos p~1) with (1 + Z.pos p + Z.pos p) by lia.
    rewrite !Z.pow_add_r by lia. lia.
  - assert (H2 : 0 <= shr_m (SpecFloat.iter_pos shr_1 p r))
      by (rewrite IH by done; apply Z.div_pos; lia).
    rewrite IH, IH by done.
    rewrite !Z.div_div by lia. f_equal.
    replace (Z.pos p~0) with (Z.pos p + Z.pos p) by lia.
    rewrite !Z.pow_add_r by lia. lia.
  - rewrite shr_1_m by done. reflexivity.
Qed.

Lemma shr_fexp_fits K m e l :
  emin prec emax <= K -> fits K m e ->
  fits K (shr_m (fst (shr_fexp prec emax m e l))) (snd (shr_fexp prec emax m e l)).
Proof.
  intros HK (Hm & He & Hlt). unfold shr_fexp, shr.
  assert (Hd : Zdigits2 m + e <= K).
  { pose proof (Zdigits2_le m (K - e) Hm ltac:(lia) Hlt). lia. }
  set (f := fexp prec emax (Zdigits2 m + e)).
  assert (Hf : f <= K) by (unfold f, fexp, prec in *; lia).
  destruct (f - e) as [|p|p] eqn:Hn; simpl; rewrite ?shr_m_of_loc; try done.
  rewrite iter_pos_shr_m by (rewrite shr_m_of_loc; done).
  rewrite shr_m_of_loc. repeat split.
  - apply Z.div_pos; lia.
  - lia.
  - apply Z.div_lt_upper_bound; [lia|].
    rewrite <- Z.pow_add_r by lia.
    replace (Z.pos p + (K - (e + Z.pos p))) with (K - e) by lia. done.
Qed.

Lemma round_nearest_even_fits K m e l :
  fits K m e -> fits (K + 1) (round_nearest_even m l) e.
Proof.
  intros (Hm & He & Hlt).
  assert (Hp : 2 ^ (K + 1 - e) = 2 * 2 ^ (K - e)).
  { replace (K + 1 - e) with (Z.succ (K - e)) by lia. apply Z.pow_succ_r; lia. }
  unfold fits. rewrite Hp.
  destruct l as [|[]]; simpl; try destruct (Z.even m); lia.
Qed.

Lemma binary_round_aux_fits K s m e l :
  emin prec emax <= K -> K <= emax - prec -> fits K m e ->
  sf_fits (K + 1) (binary_round_aux prec emax s m e l).
Proof.
  intros HK1 HK2 H. unfold binary_round_aux.
  pose proof (shr_fexp_fits K m e l HK1 H) as H1.
  destruct (shr_fexp prec emax m e l) as [r1 e1]; simpl in H1.
  apply (round_nearest_even_fits _ _ _ (loc_of_shr_record r1)) in H1.
  pose proof (shr_fexp_fits (K + 1) _ _ loc_Exact ltac:(lia) H1) as H2.
  destruct (shr_fexp prec emax _ e1 loc_Exact) as [r2 e2]; simpl in H2.
  destruct H2 as (Hm & He & Hlt).
  destruct (shr_m r2) as [|p|p] eqn:Hr; simpl; [exact I| |lia].
  assert (e2 <= K).
  { destruct (Z_le_gt_dec (K + 1 - e2) 0) as [Hle|Hgt]; [|lia].
    assert (2 ^ (K + 1 - e2) <= 2 ^ 0) by (apply Z.pow_le_mono_r; lia).
    simpl in *; lia. }
  destruct (e2 <=? emax - prec) eqn:Hle; [|apply Z.leb_gt in Hle; lia].
  simpl. unfold fits. lia.
Qed.

Lemma int_truediv_fits a b :
  0 <= a <= b -> 0 < b -> exists q, int_truediv a b = Ok q /\ sf_fits 2 q.
Proof.
  intros Ha Hb. unfold int_truediv.
  destruct (b =? 0) eqn:Hb0; [apply Z.eqb_eq in Hb0; lia|].
  eexists; split; [reflexivity|].
  destruct b as [|pb|pb]; try lia.
  destruct a as [|pa|pa]; try lia; [exact I|].
  unfold int_operand, SFdiv, SFdiv_core_binary.
  set (e' := Z.min _ _). set (s := 0 - 0 - e').
  set (m' := match s with Z0 => _ | Zpos _ => _ | Zneg _ => _ end).
  assert (He' : e' <= 0) by (unfold e'; lia).
  assert (Hm' : 0 <= m' <= Zpos pb * 2 ^ (- e')).
  { unfold m'. destruct s as [|ps|ps] eqn:Hs.
    - replace (- e') with 0 by lia. simpl. lia.
    - rewrite Z.shiftl_mul_pow2 by lia. replace (- e') with (Z.pos ps) by lia.
      assert (0 < 2 ^ Z.pos ps) by (apply Z.pow_pos_nonneg; lia). nia.
    - assert (0 < 2 ^ (- e')) by (apply Z.pow_pos_nonneg; lia). nia. }
  assert (Hq : fst (Z.div_eucl m' (Zpos pb)) = m' / Zpos pb) by reflexivity.
  destruct (Z.div_eucl m' (Zpos pb)) as [q r]; simpl in Hq; subst q.
  apply (binary_round_aux_fits 1); [unfold emin, emax, prec; lia | unfold emax, prec; lia |].
  repeat split.
  - apply Z.div_pos; lia.
  - lia.
  - replace (1 - e') with (Z.succ (- e')) by lia.
    rewrite Z.pow_succ_r by lia.
    assert (0 < 2 ^ (- e')) by (apply Z.pow_pos_nonneg; lia).
    assert (m' / Zpos pb <= 2 ^ (- e')); [|lia].
    apply Z.div_le_upper_bound; lia.
Qed.

Lemma mul_fits K1 K2 x y :
  sf_fits K1 x -> sf_fits K2 y ->
  emin prec emax <= K1 + K2 -> K1 + K2 <= emax - prec ->
  sf_fits (K1 + K2 + 1) (mul x y).
Proof.
  intros Hx Hy HK1 HK2.
  destruct x as [sx|sx| |sx mx ex], y as [sy|sy| |sy my ey]; simpl in *; try done.
  apply binary_round_aux_fits; [done..|].
  destruct Hx as (_ & Hex & Hmx), Hy as (_ & Hey & Hmy).
  repeat split; [lia..|].
  replace (K1 + K2 - (ex + ey)) with ((K1 - ex) + (K2 - ey)) by lia.
  rewrite Z.pow_add_r, Pos2Z.inj_mul by lia.
  apply Z.mul_lt_mono_nonneg; lia.
Qed.

Lemma round_fits K x : sf_fits K x -> returns (round x).
Proof. destruct x; simpl; intros H; try done; eexists; reflexivity. Qed.

Lemma of_int_100_fits : sf_fits 7 (of_int 100).
Proof. vm_compute. repeat split; discriminate || reflexivity. Qed.

Lemma valid_finite_cases m e :
  valid_binary prec emax (S754_finite false m e) = true ->
  Zpos m < 2 ^ 53 /\ (emin prec emax < e -> 2 ^ 52 <= Zpos m).
Proof.
  simpl. unfold bounded, canonical_mantissa, fexp, emin, prec, emax.
  intros H. apply andb_prop in H as [H _]. apply Z.eqb_eq in H.
  pose proof (Zdigits2_log2 (Zpos m) ltac:(lia)) as Hd.
  change (Zdigits2 (Zpos m)) with (Zpos (digits2_pos m)) in Hd.
  pose proof (Z.log2_spec (Zpos m) ltac:(lia)) as [Hlo Hhi].
  split.
  - assert (Z.log2 (Zpos m) <= 52) by lia.
    eapply Z.lt_le_trans; [exact Hhi|]. apply Z.pow_le_mono_r; lia.
  - intros He. assert (Z.log2 (Zpos m) = 52) as <- by lia. exact Hlo.
Qed.

Lemma of_int_500 : of_int 500 = S754_finite false 8796093022208000 (-44).
Proof. reflexivity. Qed.

Lemma ltb_500 x :
  valid_binary prec emax x = true ->
  ltb x (of_int 500) = true <-> below x 500.
Proof.
  intros Hv. rewrite of_int_500. unfold ltb, SFltb.
  destruct x as [s|s| |s m e]; cbn [SFcompare below].
  - split; [lia|done].
  - destruct s; split; done.
  - split; done.
  - destruct s.
    + split; [intros _|done].
      destruct (0 <=? e) eqn:He.
      * apply Z.leb_le in He. assert (0 < 2 ^ e) by (apply Z.pow_pos_nonneg; lia). nia.
      * apply Z.leb_gt in He. assert (0 < 2 ^ (- e)) by (apply Z.pow_pos_nonneg; lia). nia.
    + apply valid_finite_cases in Hv as [Hlt Hge].
      assert (H44 : 2 ^ 44 = 17592186044416) by reflexivity.
      assert (H53 : 2 ^ 53 = 512 * 2 ^ 44) by reflexivity.
      assert (H52 : 2 ^ 52 = 256 * 2 ^ 44) by reflexivity.
      destruct (e ?= -44) eqn:Hc.
      * apply Z.compare_eq_iff in Hc.
        destruct (0 <=? e) eqn:He0; [apply Z.leb_le in He0; lia|].
        replace (- e) with 44 by lia. rewrite H44.
        clear Hlt Hge H44 H53 H52 He0.
        destruct (Pos.compare_cont Eq m 8796093022208000) eqn:Hm.
        -- apply (proj1 (Pos.compare_eq_iff m _)) in Hm. subst m.
           split; [discriminate|intros; exfalso; lia].
        -- apply (proj1 (Pos.compare_lt_iff m _)) in Hm.
           apply Pos2Z.pos_lt_pos in Hm.
           split; [intros _; lia|intros _; reflexivity].
        -- apply (proj1 (Pos.compare_gt_iff m _)) in Hm.
           apply Pos2Z.pos_lt_pos in Hm.
           split; [discriminate|intros; exfalso; lia].
      * assert (Hlt44 : e < -44) by (apply Z.compare_lt_iff; exact Hc). clear Hc.
        split; [intros _|done].
        destruct (0 <=? e) eqn:He0; [apply Z.leb_le in He0; lia|].
        assert (2 * 2 ^ 44 <= 2 ^ (- e)).
        { change (2 * 2 ^ 44) with (2 ^ 45). apply Z.pow_le_mono_r; lia. }
        lia.
      * assert (Hgt44 : -44 < e) by (apply Z.compare_gt_iff; exact Hc). clear Hc.
        split; [done|intros Hb; exfalso].
        specialize (Hge ltac:(unfold emin, prec, emax; lia)).
        destruct (0 <=? e) eqn:He0.
        -- apply Z.leb_le in He0.
           assert (1 <= 2 ^ e) by (change 1 with (2 ^ 0); apply Z.pow_le_mono_r; lia).
           nia.
        -- apply Z.leb_gt in He0.
           assert (2 * 2 ^ (- e) <= 2 ^ 44).
           { assert (2 ^ (- e) <= 2 ^ 43) by (apply Z.pow_le_mono_r; lia).
             change (2 ^ 44) with (2 * 2 ^ 43). lia. }
           lia.
Qed.
Lemma fits_mono K K' m e : K <= K' -> fits K m e -> fits K' m e.
Proof.
  intros HK (Hm & He & Hlt). repeat split; [lia..|].
  eapply Z.lt_le_trans; [exact Hlt|]. apply Z.pow_le_mono_r; lia.
Qed.

Lemma sf_fits_mono K K' x : K <= K' -> sf_fits K x -> sf_fits K' x.
Proof. destruct x; simpl; try done. apply fits_mono. Qed.







End FloatFacts.


(** ** The UP rule *)

(** C2. A result is UP exactly when its status code is in 200..299 and
    its response time, a binary64 value, is below 500; the boundary
    cases 200 at 499.999, 200 at 500.0, 299 and 300 follow. *)
Theorem is_up_iff (r : HealthCheckResult) :
  valid_binary Float.prec Float.emax (response_time_ms r) = true ->
  (is_up r = true <->
     200 <= status_code r < 300 /\ Float.below (response_time_ms r) 500)
  /\ (status_code r = 200 ->
      response_time_ms r = Float.literal 499999 1000 -> is_up r = true)
  /\ (status_code r = 200 ->
      response_time_ms r = Float.of_int 500 -> is_up r = false)
  /\ (status_code r = 299 ->
      Float.below (response_time_ms r) 500 -> is_up r = true)
  /\ (status_code r = 300 -> is_up r = false).
Proof.
  intros Hv.
  assert (Hiff : is_up r = true <->
            200 <= status_code r < 300 /\ Float.below (response_time_ms r) 500).
  { unfold is_up. rewrite !andb_true_iff, Z.leb_le, Z.ltb_lt.
    rewrite (FloatFacts.ltb_500 _ Hv). tauto. }
  split; [exact Hiff|]. repeat split.
  - intros Hs Ht. unfold is_up. rewrite Hs, Ht. vm_compute. reflexivity.
  - intros Hs Ht. unfold is_up. rewrite Hs, Ht. vm_compute. reflexivity.
  - intros Hs Hb. apply Hiff. split; [lia|exact Hb].
  - intros Hs. unfold is_up. rewrite Hs. reflexivity.
Qed.

Lemma is_up_iff_witness :
  let r := Sample.result 200 (Float.literal 499999 1000) in
  valid_binary Float.prec Float.emax (response_time_ms r) = true
  /\ (is_up r = true <->
       200 <= status_code r < 300 /\ Float.below (response_time_ms r) 500).
Proof.
  split; [vm_compute; reflexivity|].
  apply (is_up_iff (Sample.result 200 (Float.literal 499999 1000))).
  vm_compute; reflexivity.
Defined.

(** ** Results, gathering and the history *)

Lemma py_bind_ok {A B} (x : py_result A) (k : A -> py_result B) b :
  py_bind x k = Ok b <-> exists a, x = Ok a /\ k a = Ok b.
Proof.
  destruct x as [a|e]; simpl.
  - split; [eauto|]. intros (a' & Ha & Hk). congruence.
  - split; [discriminate|]. intros (a' & Ha & _). discriminate.
Qed.

Lemma gather_ok {A} (tasks : list (py_result A)) rs :
  gather tasks = Ok rs <-> tasks = map Ok rs.
Proof.
  revert rs. induction tasks as [|t ts IH]; intros rs; simpl.
  - destruct rs; split; intros H; try done; congruence.
  - destruct t as [a|e]; simpl.
    + destruct (gather ts) as [rs'|e'] eqn:Hg; simpl.
      * split.
        -- intros [= <-]. simpl. f_equal. by apply IH.
        -- destruct rs as [|r rs]; [done|]. intros [= -> Hts].
           apply IH in Hts. congruence.
      * split; [done|]. destruct rs as [|r rs]; [done|].
        intros [= -> Hts]. apply IH in Hts. congruence.
    + split; [done|]. destruct rs; done.
Qed.

Lemma gather_all_ok {A} (tasks : list (py_result A)) :
  Forall returns tasks -> returns (gather tasks).
Proof.
  induction 1 as [|t ts [a ->] _ [rs IH]]; simpl.
  - by eexists.
  - rewrite IH. by eexists.
Qed.

Lemma bucket_record res r d :
  bucket (record res r) d = bucket res d ++ (if domain_is d r then [r] else []).
Proof.
  unfold bucket, record, domain_is. case_bool_decide as Hd.
  - subst d. by rewrite lookup_insert_eq.
  - rewrite lookup_insert_ne by done. by rewrite app_nil_r.
Qed.

Lemma bucket_fold_record rs :
  forall res d,
    bucket (fold_left record rs res) d = bucket res d ++ List.filter (domain_is d) rs.
Proof.
  induction rs as [|r rs IH]; intros res d; simpl.
  - by rewrite app_nil_r.
  - rewrite IH, bucket_record. destruct (domain_is d r); simpl.
    + by rewrite <- app_assoc.
    + by rewrite app_nil_r.
Qed.



Lemma no_empty_bucket_record res r :
  no_empty_bucket res -> no_empty_bucket (record res r).
Proof.
  intros H d. unfold record. destruct (decide (domain r = d)) as [<-|Hd].
  - rewrite lookup_insert_eq. intros [= Heq]. by destruct (default [] _).
  - rewrite lookup_insert_ne by done. apply H.
Qed.

Lemma no_empty_bucket_fold rs :
  forall res, no_empty_bucket res -> no_empty_bucket (fold_left record rs res).
Proof.
  induction rs as [|r rs IH]; intros res H; simpl; [done|].
  by apply IH, no_empty_bucket_record.
Qed.

Lemma lookup_bucket res d :
  no_empty_bucket res ->
  res !! d = match bucket res d with [] => None | c => Some c end.
Proof.
  intros H. unfold bucket. specialize (H d).
  destruct (res !! d) as [[|r c]|]; simpl; done.
Qed.

(** [self.results[r.domain].append(r)], step by step on the
    defaultdict, is [record]. *)
Lemma record_by_steps self r :
  Method.bind (Method.results_getitem (domain r))
    (fun checks => Method.stored_append (domain r) checks r) self
  = (Ok tt, {| endpoints := endpoints self;
               results := record (results self) r;
               timeout := timeout self |}).
Proof.
  unfold Method.bind, Method.results_getitem, Method.stored_append, record.
  destruct (results self !! domain r) as [checks|] eqn:Hr; cbn [results default].
  - reflexivity.
  - by rewrite insert_insert_eq.
Qed.

(** Reading a list by its key is no mere reading on the defaultdict: it
    stores a list under a key that was missing. *)
Lemma results_getitem_stores self key :
  results self !! key = None ->
  results (snd (Method.results_getitem key self)) !! key = Some [].
Proof.
  intros H. unfold Method.results_getitem. rewrite H. cbn [snd results].
  apply lookup_insert_eq.
Qed.

(** ** One probe *)

Lemma check_endpoint_calls G self env e :
  fst (check_endpoint G self env e) = [request_of self e].
Proof. reflexivity. Qed.

(** What a result that [check_endpoint] returns looks like: it comes
    from a response, or from a failure that [except Exception] caught. *)
Lemma check_endpoint_ok G self env e r :
  snd (check_endpoint G self env e) = Ok r ->
  get_domain e = Ok (domain r)
  /\ endpoint_name r = name e
  /\ timestamp r = timestamp_default G
  /\ ((exists st now,
         session_request env (request_of self e) = Response st now
         /\ status_code r = st
         /\ response_time_ms r =
              Float.mul (Float.sub now (start_clock env)) (Float.of_int 1000))
      \/ (exists x,
            session_request env (request_of self e) = Failure x
            /\ is_Exception x = true
            /\ status_code r = 0
            /\ response_time_ms r = Float.inf)).
Proof.
  unfold check_endpoint, check_endpoint_try. simpl.
  destruct (session_request env (request_of self e)) as [st now|x].
  - destruct (get_domain e) as [d|y]; simpl.
    + intros [= <-]. simpl. repeat split. left. by exists st, now.
    + destruct (is_Exception y); simpl; discriminate.
  - destruct (is_Exception x) eqn:Hx; [|discriminate].
    destruct (get_domain e) as [d|y]; simpl; [|discriminate].
    intros [= <-]. simpl. repeat split. right. by exists x.
Qed.


(** A failure that [except Exception] catches becomes a DOWN result,
    when [get_domain] returns. *)
Lemma check_endpoint_down G self env e d x :
  get_domain e = Ok d ->
  session_request env (request_of self e) = Failure x ->
  is_Exception x = true ->
  snd (check_endpoint G self env e)
  = Ok (HealthCheckResult_init G (name e) d Float.inf 0 None).
Proof.
  intros Hd Hf Hx. unfold check_endpoint, check_endpoint_try. simpl.
  by rewrite Hf, Hx, Hd.
Qed.

(** When [get_domain] raises, so does [check_endpoint], whatever the
    request came to. *)
Lemma check_endpoint_raises G self env e x :
  get_domain e = Raise x ->
  exists y, snd (check_endpoint G self env e) = Raise y.
Proof.
  intros Hd. unfold check_endpoint, check_endpoint_try. simpl.
  destruct (session_request env (request_of self e)) as [st now|y];
    rewrite ?Hd; simpl.
  - destruct (is_Exception x); rewrite ?Hd; simpl; by eexists.
  - destruct (is_Exception y); rewrite ?Hd; simpl; by eexists.
Qed.

(** ** One cycle *)

Lemma gather_probes G self :
  forall l env rs,
    gather (map snd (imap (fun i e => check_endpoint G self (env i) e) l)) = Ok rs ->
    Forall2 (produced G self) l rs.
Proof.
  induction l as [|e l IH]; intros env rs.
  - simpl. intros [= <-]. constructor.
  - rewrite imap_cons. cbn [map gather].
    intros H. apply py_bind_ok in H as (r & Hr & H).
    apply py_bind_ok in H as (rs' & Hrs & [= <-]).
    constructor; [by exists (env 0%nat)|].
    by apply (IH (env ∘ S)).
Qed.



(** ** The availability statistics *)

Lemma percentage_returns up total :
  0 <= up <= total -> 0 < total -> returns (percentage up total).
Proof.
  intros Hup Htot. unfold percentage.
  destruct (FloatFacts.int_truediv_fits up total Hup Htot) as (q & -> & Hq).
  simpl. apply (FloatFacts.round_fits (2 + 7 + 1)).
  apply FloatFacts.mul_fits; [exact Hq | exact FloatFacts.of_int_100_fits | |];
    unfold emin, Float.emax, Float.prec; lia.
Qed.

Lemma up_count_le checks : 0 <= up_count checks <= total_count checks.
Proof.
  unfold up_count, total_count. split; [lia|].
  apply Nat2Z.inj_le, filter_length_le.
Qed.

Lemma percentage_pct checks :
  checks <> [] ->
  percentage (up_count checks) (total_count checks) = Ok (pct checks).
Proof.
  intros Hne. unfold pct.
  destruct (percentage_returns (up_count checks) (total_count checks)) as [v ->].
  - apply up_count_le.
  - unfold total_count. destruct checks; [done|]. simpl length. lia.
  - reflexivity.
Qed.

(** On a list that is not empty, the loop body stores [percentage]. *)
Lemma availability_round checks :
  checks <> [] ->
  (let* a := availability checks in py_round a)
  = percentage (up_count checks) (total_count checks).
Proof.
  intros Hne. unfold availability, percentage.
  fold (up_count checks) (total_count checks).
  assert (H : (0 <? total_count checks) = true).
  { apply Z.ltb_lt. unfold total_count. destruct checks; [done|]. simpl length. lia. }
  rewrite H. by destruct (Float.int_truediv _ _).
Qed.

(** The loop of [get_availability_stats] assigns to no attribute. *)
Lemma stats_loop_frame items :
  forall acc self, snd (stats_loop items acc self) = self.
Proof.
  induction items as [|[d c] items IH]; intros acc self; [reflexivity|].
  cbn [stats_loop]. unfold Method.bind, Method.eval.
  destruct (availability c) as [a|x]; [|reflexivity].
  destruct (py_round a) as [v|x]; [|reflexivity].
  apply IH.
Qed.

Lemma get_availability_stats_frame self :
  snd (get_availability_stats self) = self.
Proof.
  unfold get_availability_stats, Method.bind, Method.results_items.
  apply stats_loop_frame.
Qed.

Lemma get_availability_stats_pair self :
  get_availability_stats self = (fst (get_availability_stats self), self).
Proof.
  rewrite <- (get_availability_stats_frame self) at 3.
  apply surjective_pairing.
Qed.

Lemma stats_loop_spec self items :
  forall acc,
    Forall (fun it => snd it <> []) items ->
    NoDup (map fst items) ->
    exists stats,
      stats_loop items acc self = (Ok stats, self)
      /\ (forall d c, In (d, c) items -> stats !! d = Some (pct c))
      /\ (forall d, ~ In d (map fst items) -> stats !! d = acc !! d).
Proof.
  induction items as [|[d0 c0] items IH]; intros acc Hne Hnd.
  - exists acc. simpl. split; [reflexivity|]. split; [intros d c []|reflexivity].
  - apply Forall_cons in Hne as [Hc0 Hne]. simpl in Hc0.
    apply NoDup_cons in Hnd as [Hd0 Hnd].
    destruct (IH (<[d0 := pct c0]> acc) Hne Hnd) as (stats & Hloop & Hin & Hout).
    exists stats. cbn [stats_loop]. unfold Method.bind, Method.eval.
    pose proof (availability_round c0 Hc0) as Hround.
    rewrite percentage_pct in Hround by done.
    destruct (availability c0) as [a|x]; simpl in Hround; [|discriminate].
    rewrite Hround.
    split; [exact Hloop|]. split.
    + intros d c [[= -> ->]|Hdc]; [|by apply Hin].
      rewrite Hout; [by rewrite lookup_insert_eq|].
      by rewrite <- list_elem_of_In.
    + intros d Hd. simpl in Hd.
      rewrite Hout by tauto. apply lookup_insert_ne. tauto.
Qed.

Lemma get_availability_stats_spec self :
  no_empty_bucket (results self) ->
  exists stats,
    get_availability_stats self = (Ok stats, self)
    /\ forall d, stats !! d = pct <$> results self !! d.
Proof.
  intros Hne. unfold get_availability_stats, Method.bind, Method.results_items.
  destruct (stats_loop_spec self (map_to_list (results self)) ∅)
    as (stats & -> & Hin & Hout).
  - apply Forall_forall. intros [d c] Hdc. simpl. intros ->.
    apply elem_of_map_to_list in Hdc. by apply (Hne d).
  - apply NoDup_fst_map_to_list.
  - exists stats. split; [done|]. intros d.
    destruct (results self !! d) as [c|] eqn:Hd; simpl.
    + apply Hin. rewrite <- list_elem_of_In. by apply elem_of_map_to_list.
    + rewrite Hout; [done|].
      rewrite <- list_elem_of_In. intros Hd'.
      apply list_elem_of_fmap in Hd' as ([d' c] & -> & Hdc).
      apply elem_of_map_to_list in Hdc. simpl in Hd. congruence.
Qed.

Lemma check_all_endpoints_ok G env self rs :
  cycle_results G env self = Ok rs ->
  check_all_endpoints G env self
  = Ok {| endpoints := endpoints self;
          results := fold_left record rs (results self);
          timeout := timeout self |}.
Proof.
  unfold cycle_results, check_all_endpoints. by intros ->.
Qed.

Lemma reachable_inv G eps log self :
  reachable G eps log self ->
  endpoints self = eps
  /\ timeout self = {| total := 5 |}
  /\ no_empty_bucket (results self)
  /\ forall d, bucket (results self) d = List.filter (domain_is d) log.
Proof.
  induction 1 as [|log self env rs self' _ (He & Ht & Hn & Hb) Hrs Hself].
  - split; [reflexivity|]. split; [reflexivity|].
    split; [intros d; simpl; by rewrite lookup_empty|].
    intros d. unfold bucket. simpl. by rewrite lookup_empty.
  - rewrite (check_all_endpoints_ok _ _ _ _ Hrs) in Hself.
    injection Hself as <-. simpl.
    split; [exact He|]. split; [exact Ht|].
    split; [by apply no_empty_bucket_fold|].
    intros d. by rewrite bucket_fold_record, Hb, List.filter_app.
Qed.

Lemma reachable_no_endpoints G log self :
  reachable G [] log self -> log = [].
Proof.
  induction 1 as [|log self env rs self' Hreach -> Hrs _]; [done|].
  apply reachable_inv in Hreach as (He & _).
  unfold cycle_results, probes in Hrs. rewrite He in Hrs.
  simpl in Hrs. by injection Hrs as <-.
Qed.

(** C1, as the code has it.  After any number of completed cycles,
    [get_availability_stats] returns a mapping; the history of a domain
    is every result recorded for it since the checker was built, over all
    cycles; a domain has an entry exactly when that history is not empty;
    its value is [round(up_count / total_count * 100)] computed in
    binary64, ties of [round] to even; with no endpoint the mapping is
    empty. *)
Theorem availability_cumulative G eps log self :
  reachable G eps log self ->
  exists stats,
    get_availability_stats self = (Ok stats, self)
    /\ (forall d, bucket (results self) d = List.filter (domain_is d) log)
    /\ (forall d, stats !! d = None <-> List.filter (domain_is d) log = [])
    /\ (forall d, List.filter (domain_is d) log <> [] ->
          exists v,
            stats !! d = Some v
            /\ percentage (up_count (List.filter (domain_is d) log))
                          (total_count (List.filter (domain_is d) log)) = Ok v)
    /\ (eps = [] -> stats = ∅).
Proof.
  intros Hreach.
  pose proof (reachable_inv _ _ _ _ Hreach) as (He & Ht & Hn & Hb).
  destruct (get_availability_stats_spec self Hn) as (stats & Hstats & Hlook).
  assert (Hd : forall d, stats !! d
            = match List.filter (domain_is d) log with
              | [] => None
              | c => Some (pct c)
              end).
  { intros d. rewrite Hlook, (lookup_bucket _ _ Hn), Hb.
    by destruct (List.filter (domain_is d) log). }
  exists stats. split; [exact Hstats|]. split; [exact Hb|]. split; [|split].
  - intros d. rewrite Hd. by destruct (List.filter (domain_is d) log).
  - intros d Hne. exists (pct (List.filter (domain_is d) log)). split.
    + rewrite Hd. by destruct (List.filter (domain_is d) log).
    + by apply percentage_pct.
  - intros ->. apply reachable_no_endpoints in Hreach as ->.
    apply map_eq. intros d. by rewrite Hd, lookup_empty.
Qed.

Lemma availability_cumulative_witness :
  reachable Sample.G [Sample.orders; Sample.users; Sample.home]
    Sample.one_cycle_results Sample.after_one_cycle
  /\ exists stats,
       get_availability_stats Sample.after_one_cycle = (Ok stats, Sample.after_one_cycle)
       /\ stats !! "api.example.com:8080"%string = Some 100
       /\ stats !! "nowhere.example"%string = None.
Proof.
  assert (H : reachable Sample.G [Sample.orders; Sample.users; Sample.home]
                Sample.one_cycle_results Sample.after_one_cycle).
  { apply (reachable_cycle Sample.G _ [] Sample.checker (Sample.answers 200)
             Sample.one_cycle_results Sample.after_one_cycle).
    - apply reachable_init.
    - vm_compute; reflexivity.
    - vm_compute; reflexivity. }
  split; [exact H|].
  destruct (availability_cumulative _ _ _ _ H) as (stats & Hstats & _ & Hnone & Hsome & _).
  exists stats. split; [exact Hstats|]. split.
  - destruct (Hsome "api.example.com:8080"%string) as (v & -> & Hv).
    + vm_compute. discriminate.
    + f_equal. vm_compute in Hv. by injection Hv.
  - apply Hnone. vm_compute; reflexivity.
Defined.

(** The figures of the specification: two results UP out of three give
    67, three out of four give 75; none gives 0 and all give 100. *)
Lemma percentage_examples :
  percentage 2 3 = Ok 67 /\ percentage 3 4 = Ok 75
  /\ percentage 0 5 = Ok 0 /\ percentage 5 5 = Ok 100.
Proof. repeat split; vm_compute; reflexivity. Qed.

(** C1, as the specification words it, fails: with 23 results UP out of
    40 the exact quotient is 57.5, which either rule for ties rounds to
    58; the code stores 57, since 23 / 40 * 100 is 57.49999999999999 in
    binary64.  With 1 out of 8 the float is 12.5 exactly and [round]
    gives 12, not 13. *)
Lemma availability_not_exact_round :
  exists self stats,
    check_all_endpoints Sample.G Sample.first_23_up Sample.forty = Ok self
    /\ get_availability_stats self = (Ok stats, self)
    /\ up_count (bucket (results self) "api.example.com:8080") = 23
    /\ total_count (bucket (results self) "api.example.com:8080") = 40
    /\ stats !! "api.example.com:8080"%string = Some 57
    /\ Spec.round_half_up 23 40 = 58
    /\ Spec.round_half_even 23 40 = 58
    /\ percentage 1 8 = Ok 12
    /\ Spec.round_half_up 1 8 = 13.
Proof.
  eexists. eexists.
  split; [vm_compute; reflexivity|].
  split; [vm_compute; reflexivity|].
  repeat split; vm_compute; reflexivity.
Qed.

(** ** [get_availability_stats] only reads *)

(** C10. A call of [get_availability_stats] leaves the checker as it
    was, every field of it, and a second call returns what the first
    returned. *)
Theorem get_availability_stats_observer (self : HealthChecker) :
  snd (get_availability_stats self) = self
  /\ results (snd (get_availability_stats self)) = results self
  /\ endpoints (snd (get_availability_stats self)) = endpoints self
  /\ timeout (snd (get_availability_stats self)) = timeout self
  /\ fst (get_availability_stats (snd (get_availability_stats self)))
     = fst (get_availability_stats self).
Proof.
  pose proof (get_availability_stats_frame self) as Hframe.
  rewrite Hframe. repeat split.
Qed.

(** ** The timestamp of a result *)

(** Every result of [check_endpoint] carries the default bound when the
    module was imported. *)
Lemma timestamp_is_import_time G self env e r :
  snd (check_endpoint G self env e) = Ok r ->
  timestamp r = timestamp_default G.
Proof. intros H. apply check_endpoint_ok in H. tauto. Qed.

(** C9, on the code.  Two probes dispatched 4000 seconds apart return
    results with one and the same timestamp, the clock at import. *)
Theorem timestamps_shared :
  let G := import_module 1700000000000000 in
  exists r1 r2,
    snd (check_endpoint G Sample.checker (Sample.probe_at 1000) Sample.orders) = Ok r1
    /\ snd (check_endpoint G Sample.checker (Sample.probe_at 5000) Sample.orders) = Ok r2
    /\ start_clock (Sample.probe_at 1000) <> start_clock (Sample.probe_at 5000)
    /\ timestamp r1 = 1700000000000000
    /\ timestamp r2 = 1700000000000000.
Proof.
  eexists. eexists.
  split; [vm_compute; reflexivity|].
  split; [vm_compute; reflexivity|].
  split; [vm_compute; discriminate|].
  split; reflexivity.
Qed.

(** ** Failures of a probe *)

(** C4, on the code.  The url "http://[" makes [get_domain] raise.  The
    request fails, [except Exception] catches the failure, and the
    handler calls [get_domain]: the [ValueError] leaves [check_endpoint],
    then [check_all_endpoints], which records nothing, and [run]. *)
Theorem malformed_url_raises :
  get_domain Sample.broken = Raise ValueError
  /\ snd (check_endpoint Sample.G Sample.checker (Sample.fails InvalidURL 0) Sample.broken)
     = Raise ValueError
  /\ snd (check_endpoint Sample.G Sample.checker (Sample.fails TimeoutError 0) Sample.broken)
     = Raise ValueError
  /\ check_all_endpoints Sample.G (Sample.fails InvalidURL)
       (HealthChecker_init [Sample.orders; Sample.broken])
     = Raise ValueError
  /\ pc (exec Sample.G
           [Advance (Sample.fails InvalidURL); Advance (Sample.fails InvalidURL);
            Advance (Sample.fails InvalidURL)]
           (boot [Sample.orders; Sample.broken]))
     = Raised ValueError.
Proof. repeat split; vm_compute; reflexivity. Qed.

(** ** The request of a probe *)

Lemma escape_length c : (1 <= length (Json.escape c))%nat.
Proof.
  unfold Json.escape.
  repeat match goal with |- context [if ?b then _ else _] => destruct b end;
    simpl; lia.
Qed.

Lemma flat_map_escape_length l :
  (length l <= length (flat_map Json.escape l))%nat.
Proof.
  induction l as [|c l IH]; simpl; [lia|].
  rewrite length_app. pose proof (escape_length c). lia.
Qed.

Lemma dumps_str_differs b : Json.dumps_str b <> b.
Proof.
  unfold Json.dumps_str. intros H.
  apply (f_equal list_ascii_of_string) in H.
  rewrite list_ascii_of_string_of_list_ascii in H.
  apply (f_equal (@length ascii)) in H. simpl in H.
  rewrite length_app in H. simpl in H.
  pose proof (flat_map_escape_length (list_ascii_of_string b)). lia.
Qed.

(** C8, as the code has it.  A probe calls [session.request] once, with
    the method, the url and the headers of the endpoint and with the one
    timeout of the checker, 5 seconds in total.  A body that is a
    non-empty string is passed as the [json] argument, so what goes out
    is its JSON encoding, which is never the body itself; a body that is
    absent or empty sends nothing. *)
Theorem one_request_per_probe G eps log self env e :
  reachable G eps log self ->
  fst (check_endpoint G self env e) = [request_of self e]
  /\ req_method (request_of self e) = method e
  /\ req_url (request_of self e) = url e
  /\ req_headers (request_of self e) = headers e
  /\ req_timeout (request_of self e) = {| total := 5 |}
  /\ req_json (request_of self e) = if_truthy (body e)
  /\ (body e = None \/ body e = Some EmptyString ->
        body_sent (request_of self e) = None)
  /\ (forall b, body e = Some b -> b <> EmptyString ->
        body_sent (request_of self e) = Some (Json.dumps_str b)
        /\ Json.dumps_str b <> b).
Proof.
  intros Hreach. apply reachable_inv in Hreach as (_ & Ht & _).
  repeat split; try done.
  - unfold body_sent, request_of. simpl. by intros [-> | ->].
  - unfold body_sent, request_of. simpl. rewrite H. by destruct b.
  - apply dumps_str_differs.
Qed.

Lemma one_request_per_probe_witness :
  reachable Sample.G [Sample.orders; Sample.users; Sample.home]
    Sample.one_cycle_results Sample.after_one_cycle
  /\ fst (check_endpoint Sample.G Sample.after_one_cycle (Sample.answers 200 1) Sample.users)
     = [request_of Sample.after_one_cycle Sample.users]
  /\ req_timeout (request_of Sample.after_one_cycle Sample.users) = {| total := 5 |}.
Proof.
  assert (H : reachable Sample.G [Sample.orders; Sample.users; Sample.home]
                Sample.one_cycle_results Sample.after_one_cycle).
  { apply (reachable_cycle Sample.G _ [] Sample.checker (Sample.answers 200)
             Sample.one_cycle_results Sample.after_one_cycle).
    - apply reachable_init.
    - vm_compute; reflexivity.
    - vm_compute; reflexivity. }
  split; [exact H|].
  destruct (one_request_per_probe Sample.G _ _ _ (Sample.answers 200 1) Sample.users H)
    as (Hcalls & _ & _ & _ & Htimeout & _).
  split; [exact Hcalls | exact Htimeout].
Defined.

(** C8, as the specification words it, fails.  The body "{}" goes out
    between double quotes, four characters instead of two, and the body
    that is the empty string does not go out at all. *)
Lemma body_not_sent_as_written :
  body Sample.users = Some "{}"%string
  /\ map body_sent
       (fst (check_endpoint Sample.G Sample.checker (Sample.answers 200 1) Sample.users))
     = [Some (String Json.dquote (String "{" (String "}" (String Json.dquote EmptyString))))]
  /\ map body_sent
       (fst (check_endpoint Sample.G Sample.checker (Sample.answers 200 1) Sample.users))
     <> [body Sample.users]
  /\ body Sample.blank = Some EmptyString
  /\ map body_sent
       (fst (check_endpoint Sample.G Sample.checker (Sample.answers 200 1) Sample.blank))
     = [None].
Proof.
  repeat split; try (vm_compute; reflexivity).
  vm_compute. discriminate.
Qed.

(** ** The domain of an endpoint *)

Module UrlFacts.
Import Url UrlShape.












Lemma filter_all {A} (p : A -> bool) l :
  forallb p l = true -> List.filter p l = l.
Proof.
  induction l as [|x l IH]; simpl; [done|].
  intros [Hx Hl]%andb_prop. rewrite Hx. f_equal. by apply IH.
Qed.





Lemma take_until_none p l :
  forallb (fun x => negb (p x)) (take_until p l) = true.
Proof.
  induction l as [|x l IH]; simpl; [done|].
  destruct (p x) eqn:Hx; simpl; [done|]. by rewrite Hx.
Qed.








End UrlFacts.




(** ** The loop and [stop] *)

Lemma winding_down_step G s ev :
  winding_down s ->
  winding_down (step G s ev)
  /\ cycles_started (step G s ev) = cycles_started s
  /\ printed (step G s ev) = printed s.
Proof.
  intros [Hrun Hpc]. destruct ev as [env|]; simpl.
  - unfold advance, winding_down.
    destruct Hpc as [Hpc | [Hpc | [Hpc | [e Hpc]]]]; rewrite Hpc; simpl;
      rewrite ?Hrun; simpl; repeat split; eauto 6.
  - unfold call_stop, winding_down. simpl. repeat split; eauto.
Qed.

Lemma winding_down_exec G evs :
  forall s,
    winding_down s ->
    cycles_started (exec G evs s) = cycles_started s
    /\ printed (exec G evs s) = printed s.
Proof.
  induction evs as [|ev evs IH]; intros s Hs; simpl; [done|].
  destruct (winding_down_step G s ev Hs) as (Hs' & Hc & Hp).
  destruct (IH _ Hs') as [Hc' Hp']. unfold exec in *.
  by rewrite Hc', Hp', Hc, Hp.
Qed.

Lemma run_check_cycle_running G env self b svc stats :
  run_check_cycle G env self = Ok (svc, stats) ->
  run_check_cycle G env
    {| service_endpoints := service_endpoints self;
       health_checker := health_checker self;
       running := b |}
  = Ok ({| service_endpoints := service_endpoints svc;
           health_checker := health_checker svc;
           running := b |}, stats).
Proof.
  unfold run_check_cycle. cbn [health_checker service_endpoints running].
  destruct (check_all_endpoints G env (health_checker self)) as [hc|x];
    cbn [py_bind]; [|done].
  rewrite get_availability_stats_frame.
  destruct (fst (get_availability_stats hc)) as [st|x]; cbn [py_bind]; [|done].
  by intros [= <- <-].
Qed.

(** C6. [stop] clears the flag [running] and touches nothing else.  A
    move of [run] out of a cycle or out of the sleep does not depend on
    the flag: it is read at the loop test only.  After a [stop] during
    the sleep, no cycle is started and nothing more is printed, whatever
    happens next, and [run] returns after the sleep and the test.  After
    a [stop] during a cycle that completes, the cycle records and prints
    what it would have without the [stop], no further cycle is started,
    and [run] returns after the sleep and the test. *)
Theorem stop_observed_between_cycles G (s : system) :
  (running (service (call_stop s)) = false
   /\ pc (call_stop s) = pc s
   /\ printed (call_stop s) = printed s
   /\ cycles_started (call_stop s) = cycles_started s
   /\ health_checker (service (call_stop s)) = health_checker (service s))
  /\ (forall env b, pc s = InCycle \/ pc s = Sleeping ->
        advance G env (with_running b s) = with_running b (advance G env s))
  /\ (pc s = Sleeping ->
        (forall evs,
           cycles_started (exec G evs (call_stop s)) = cycles_started s
           /\ printed (exec G evs (call_stop s)) = printed s)
        /\ forall env1 env2,
             pc (exec G [Advance env1; Advance env2] (call_stop s)) = Returned)
  /\ (pc s = InCycle ->
      forall env svc stats,
        run_check_cycle G env (service s) = Ok (svc, stats) ->
        pc (advance G env (call_stop s)) = Sleeping
        /\ printed (advance G env (call_stop s)) = printed s ++ [stats]
        /\ health_checker (service (advance G env (call_stop s))) = health_checker svc
        /\ (forall evs,
              cycles_started (exec G evs (advance G env (call_stop s))) = cycles_started s
              /\ printed (exec G evs (advance G env (call_stop s))) = printed s ++ [stats])
        /\ forall env1 env2,
             pc (exec G [Advance env1; Advance env2] (advance G env (call_stop s)))
             = Returned).
Proof.
  split; [repeat split|]. split; [|split].
  - intros env b [Hpc | Hpc]; unfold advance, with_running; simpl; rewrite Hpc.
    + destruct (run_check_cycle G env (service s)) as [[svc stats]|x] eqn:Hc.
      * rewrite (run_check_cycle_running _ _ _ b _ _ Hc). simpl. reflexivity.
      * unfold run_check_cycle in *. cbn [health_checker service_endpoints running].
        destruct (check_all_endpoints G env (health_checker (service s))) as [hc|y];
          cbn [py_bind] in *.
        -- destruct (fst (get_availability_stats hc)); cbn [py_bind] in *;
             [discriminate|].
           by injection Hc as ->.
        -- by injection Hc as ->.
    + reflexivity.
  - intros Hpc.
    assert (Hw : winding_down (call_stop s)) by (split; [done|left; exact Hpc]).
    split.
    + intros evs. apply (winding_down_exec G evs) in Hw. exact Hw.
    + intros env1 env2. unfold exec. simpl. unfold advance at 2. simpl. rewrite Hpc.
      unfold advance. simpl. reflexivity.
  - intros Hpc env svc stats Hc.
    pose proof (run_check_cycle_running _ _ _ false _ _ Hc) as Hc'.
    assert (Hadv : advance G env (call_stop s)
                   = {| service := {| service_endpoints := service_endpoints svc;
                                      health_checker := health_checker svc;
                                      running := false |};
                        pc := Sleeping; printed := printed s ++ [stats];
                        cycles_started := cycles_started s |}).
    { unfold advance, call_stop, stop. simpl. rewrite Hpc.
      unfold stop in Hc'. simpl. by rewrite Hc'. }
    rewrite Hadv. simpl.
    split; [reflexivity|]. split; [reflexivity|]. split; [reflexivity|]. split.
    + intros evs.
      match goal with |- context [exec G evs ?s1] =>
        apply (winding_down_exec G evs s1) end.
      split; [reflexivity|by left].
    + intros env1 env2. reflexivity.
Qed.

Lemma stop_observed_between_cycles_witness :
  pc Sample.in_first_sleep = Sleeping
  /\ pc Sample.in_first_cycle = InCycle
  /\ cycles_started
       (exec Sample.G [Advance (Sample.answers 200); Advance (Sample.answers 200)]
          (call_stop Sample.in_first_sleep)) = 1%nat
  /\ pc (exec Sample.G [Advance (Sample.answers 200); Advance (Sample.answers 200)]
           (call_stop Sample.in_first_sleep)) = Returned
  /\ pc (advance Sample.G (Sample.answers 200) (call_stop Sample.in_first_cycle)) = Sleeping.
Proof.
  assert (H1 : pc Sample.in_first_sleep = Sleeping) by (vm_compute; reflexivity).
  assert (H2 : pc Sample.in_first_cycle = InCycle) by (vm_compute; reflexivity).
  split; [exact H1|]. split; [exact H2|].
  destruct (stop_observed_between_cycles Sample.G Sample.in_first_sleep)
    as (_ & _ & Hsleep & _).
  destruct (Hsleep H1) as [Hquiet Hexit].
  destruct (stop_observed_between_cycles Sample.G Sample.in_first_cycle)
    as (_ & _ & _ & Hcycle).
  split; [|split].
  - destruct (Hquiet [Advance (Sample.answers 200); Advance (Sample.answers 200)])
      as [Hc _].
    rewrite Hc. vm_compute; reflexivity.
  - apply Hexit.
  - destruct (run_check_cycle Sample.G (Sample.answers 200) (service Sample.in_first_cycle))
      as [[svc stats]|x] eqn:Hrun.
    + destruct (Hcycle H2 _ _ _ Hrun) as (Hpc & _). exact Hpc.
    + vm_compute in Hrun. discriminate Hrun.
Defined.

(** ** The sentinel of a failed probe *)




(** * Further properties of the code

    ** Binary64 arithmetic: upper bounds *)

Module FloatBoundFacts.
Import Float FloatBound.

Lemma pow2_step e : e + 1 <= 0 -> 2 ^ (- e) = 2 * 2 ^ (- (e + 1)).
Proof.
  intros He. replace (- e) with (Z.succ (- (e + 1))) by lia.
  apply Z.pow_succ_r. lia.
Qed.

Lemma shr_1_under B r e :
  under_rec B r e -> e + 1 <= 0 -> under_rec B (shr_1 r) (e + 1).
Proof.
  intros (He & Hm & Hle) He1. rewrite (pow2_step e He1) in Hle.
  set (X := 2 ^ (- (e + 1))) in *.
  unfold under_rec, inexact in *.
  destruct r as [m rb sb]; simpl in *.
  destruct m as [|[p|p|]|p]; simpl; try lia;
    destruct rb, sb; simpl in *; lia.
Qed.

Lemma iter_shr_1_under B p :
  forall r e,
    under_rec B r e -> e + Zpos p <= 0 ->
    under_rec B (SpecFloat.iter_pos shr_1 p r) (e + Zpos p).
Proof.
  induction p as [p IH|p IH|]; intros r e Hr He; simpl SpecFloat.iter_pos.
  - replace (e + Z.pos p~1) with (e + 1 + Z.pos p + Z.pos p) by lia.
    apply IH; [apply IH; [apply shr_1_under; [done|lia]|lia]|lia].
  - replace (e + Z.pos p~0) with (e + Z.pos p + Z.pos p) by lia.
    apply IH; [apply IH; [done|lia]|lia].
  - by apply shr_1_under.
Qed.

Lemma shr_fexp_under B m e l :
  0 <= B < 2 ^ 53 ->
  under_rec B (shr_record_of_loc m l) e ->
  under_rec B (fst (shr_fexp prec emax m e l)) (snd (shr_fexp prec emax m e l)).
Proof.
  intros HB Hr. unfold shr_fexp, shr.
  pose proof Hr as (He & Hm & Hle). rewrite FloatFacts.shr_m_of_loc in Hm, Hle.
  assert (Hd : Zdigits2 m + e <= 53).
  { assert (Zdigits2 m <= 53 - e); [|lia].
    apply FloatFacts.Zdigits2_le; [done|lia|].
    replace (53 - e) with (53 + - e) by lia. rewrite Z.pow_add_r by lia.
    assert (0 < 2 ^ (- e)) by (apply Z.pow_pos_nonneg; lia).
    destruct (inexact _); nia. }
  set (f := fexp prec emax (Zdigits2 m + e)).
  assert (Hf : f <= 0) by (unfold f, fexp, emin, prec, emax; lia).
  destruct (f - e) as [|p|p] eqn:Hn; simpl; try done.
  apply iter_shr_1_under; [done|lia].
Qed.

Lemma round_nearest_even_le r :
  0 <= shr_m r ->
  0 <= round_nearest_even (shr_m r) (loc_of_shr_record r)
       <= shr_m r + (if inexact r then 1 else 0).
Proof.
  destruct r as [m [] []]; unfold inexact; simpl; intros Hm;
    try destruct (Z.even m); lia.
Qed.

Lemma binary_round_aux_under B m e l :
  0 <= B < 2 ^ 53 ->
  under_rec B (shr_record_of_loc m l) e ->
  sf_under B (binary_round_aux prec emax false m e l).
Proof.
  intros HB Hr. unfold binary_round_aux.
  pose proof (shr_fexp_under B m e l HB Hr) as H1.
  destruct (shr_fexp prec emax m e l) as [r1 e1]; simpl in H1.
  destruct H1 as (He1 & Hm1 & Hle1).
  pose proof (round_nearest_even_le r1 Hm1) as Hrne.
  set (m2 := round_nearest_even (shr_m r1) (loc_of_shr_record r1)) in *.
  assert (H2 : under_rec B (shr_record_of_loc m2 loc_Exact) e1).
  { unfold under_rec, inexact. simpl. repeat split; lia. }
  apply (shr_fexp_under B m2 e1 loc_Exact HB) in H2.
  destruct (shr_fexp prec emax m2 e1 loc_Exact) as [r3 e3]; simpl in H2.
  destruct H2 as (He3 & Hm3 & Hle3).
  destruct (shr_m r3) as [|p|p] eqn:Hr3; simpl; [exact I| |lia].
  destruct (e3 <=? emax - prec) eqn:Hle;
    [|apply Z.leb_gt in Hle; unfold emax, prec in Hle; lia].
  simpl. unfold under. repeat split; try lia.
  destruct (inexact r3); lia.
Qed.
Lemma inexact_of_loc m c : inexact (shr_record_of_loc m (loc_Inexact c)) = true.
Proof. by destruct c. Qed.

Lemma new_location_cases n k :
  new_location n k = loc_Exact /\ k = 0
  \/ exists c, new_location n k = loc_Inexact c /\ k <> 0.
Proof.
  unfold new_location, new_location_even, new_location_odd.
  destruct (Z.even n); destruct (k =? 0) eqn:Hk;
    (apply Z.eqb_eq in Hk || apply Z.eqb_neq in Hk);
    (by left) || (right; eexists; split; [reflexivity|exact Hk]).
Qed.

(** The quotient of [a <= b] is at most 1. *)
Lemma int_truediv_under a b :
  0 <= a <= b -> 0 < b ->
  exists q, int_truediv a b = Ok q /\ sf_under 1 q.
Proof.
  intros Ha Hb. unfold int_truediv.
  destruct (b =? 0) eqn:Hb0; [apply Z.eqb_eq in Hb0; lia|].
  eexists; split; [reflexivity|].
  destruct b as [|pb|pb]; try lia.
  destruct a as [|pa|pa]; try lia; [exact I|].
  unfold int_operand, SFdiv, SFdiv_core_binary.
  set (e' := Z.min _ _). set (s := 0 - 0 - e').
  set (m' := match s with Z0 => _ | Zpos _ => _ | Zneg _ => _ end).
  assert (He' : e' <= 0) by (unfold e'; lia).
  assert (Hpow : 0 < 2 ^ (- e')) by (apply Z.pow_pos_nonneg; lia).
  assert (Hm' : 0 <= m' <= Zpos pb * 2 ^ (- e')).
  { unfold m'. destruct s as [|ps|ps] eqn:Hs.
    - replace (- e') with 0 by lia. simpl. lia.
    - rewrite Z.shiftl_mul_pow2 by lia. replace (- e') with (Z.pos ps) by lia. nia.
    - nia. }
  pose proof (Z_div_mod m' (Zpos pb) ltac:(lia)) as Hdiv.
  destruct (Z.div_eucl m' (Zpos pb)) as [q r]. destruct Hdiv as [Hq Hr].
  cbn [xorb]. apply binary_round_aux_under; [split; [lia|reflexivity]|].
  unfold under_rec. rewrite FloatFacts.shr_m_of_loc.
  assert (Hq0 : 0 <= q) by nia.
  split; [exact He'|]. split; [exact Hq0|].
  destruct (new_location_cases (Zpos pb) r) as [[-> ->] | (c & -> & Hne)].
  - simpl. nia.
  - rewrite inexact_of_loc. nia.
Qed.

Lemma of_int_100 : of_int 100 = S754_finite false 7036874417766400 (-46).
Proof. reflexivity. Qed.

(** At most 1, times 100.0, is at most 100. *)
Lemma mul_100_under q : sf_under 1 q -> sf_under 100 (mul q (of_int 100)).
Proof.
  rewrite of_int_100. destruct q as [s|s| |[] m e]; simpl; try done.
  intros (He & _ & Hm).
  apply binary_round_aux_under; [split; [lia|reflexivity]|].
  unfold under_rec, inexact. simpl.
  split; [lia|]. split; [lia|].
  replace (- (e + -46)) with (- e + 46) by lia.
  rewrite Z.pow_add_r by lia.
  assert (H46 : 2 ^ 46 = 70368744177664) by reflexivity.
  rewrite H46, Pos2Z.inj_mul. rewrite Z.add_0_r.
  change (Z.pos 7036874417766400) with (100 * 70368744177664). nia.
Qed.

Lemma round_under x :
  sf_under 100 x -> exists v, round x = Ok v /\ 0 <= v <= 100.
Proof.
  destruct x as [s|s| |[] m e]; simpl; try done.
  - intros _. exists 0. split; [reflexivity|lia].
  - intros (He & _ & Hm). eexists. split; [reflexivity|].
    unfold round_half_even. destruct e as [|pe|pe]; [|lia|].
    + simpl in Hm. lia.
    + replace (- Z.neg pe) with (Z.pos pe) in Hm by lia.
      set (d := 2 ^ Z.pos pe) in *.
      assert (Hd : 0 < d) by (apply Z.pow_pos_nonneg; lia).
      pose proof (Z.div_mod (Zpos m) d ltac:(lia)) as Hdm.
      pose proof (Z.mod_pos_bound (Zpos m) d Hd) as Hr.
      set (q := Zpos m / d) in *. set (r := Zpos m mod d) in *.
      assert (Hq : 0 <= q <= 100) by nia.
      destruct (Z.compare_spec (2 * r) d); try destruct (Z.even q); nia.
Qed.
(** [n / n] is 1.0. *)
Lemma int_truediv_same p :
  int_truediv (Zpos p) (Zpos p) = Ok (S754_finite false 4503599627370496 (-52)).
Proof.
  unfold int_truediv. cbn [Z.eqb]. f_equal.
  unfold int_operand, SFdiv, SFdiv_core_binary.
  replace (Zdigits2 (Z.pos p) + 0 - (Zdigits2 (Z.pos p) + 0)) with 0 by lia.
  change (Z.min (fexp prec emax 0) (0 - 0)) with (-53).
  change (0 - 0 - -53) with 53.
  cbv iota.
  match goal with |- context [IntDef.Z.div_eucl ?a ?b] =>
    assert (Hdiv : IntDef.Z.div_eucl a b = (2 ^ 53, 0)) end.
  { change (Z.div_eucl (Z.shiftl (Z.pos p) 53) (Z.pos p) = (2 ^ 53, 0)).
    rewrite Z.shiftl_mul_pow2 by lia.
    pose proof (Z_div_mod (Z.pos p * 2 ^ 53) (Z.pos p) ltac:(lia)) as H.
    destruct (Z.div_eucl (Z.pos p * 2 ^ 53) (Z.pos p)) as [q r].
    destruct H as [Hq Hr].
    assert (q = 2 ^ 53) by nia. assert (r = 0) by nia. congruence. }
  rewrite Hdiv.
  destruct (new_location_cases (Zpos p) 0) as [[-> _] | (c & _ & Hne)]; [|done].
  vm_compute. reflexivity.
Qed.
End FloatBoundFacts.
(** ** The range of the statistics *)

Lemma percentage_bounds up total :
  0 <= up <= total -> 0 < total ->
  exists v,
    percentage up total = Ok v
    /\ 0 <= v <= 100
    /\ (up = 0 -> v = 0)
    /\ (up = total -> v = 100).
Proof.
  intros Hup Htot. unfold percentage.
  destruct (FloatBoundFacts.int_truediv_under up total Hup Htot) as (q & Hq & Hunder).
  rewrite Hq. simpl.
  destruct (FloatBoundFacts.round_under _ (FloatBoundFacts.mul_100_under q Hunder))
    as (v & Hv & Hrange).
  exists v. split; [exact Hv|]. split; [exact Hrange|]. split.
  - intros ->. unfold Float.int_truediv in Hq.
    destruct (total =? 0); [discriminate|]. injection Hq as <-.
    destruct total; try lia. simpl in Hv. by injection Hv.
  - intros ->. destruct total as [|p|p]; try lia.
    rewrite FloatBoundFacts.int_truediv_same in Hq. injection Hq as <-.
    vm_compute in Hv. by injection Hv.
Qed.

(** X1. With [0 <= up <= total] and [total > 0], the float computation
    [round(up / total * 100)] returns an integer from 0 to 100; it is 0
    when [up = 0] and 100 when [up = total]. *)
Theorem percentage_range up total :
  0 <= up <= total -> 0 < total ->
  exists v,
    percentage up total = Ok v
    /\ 0 <= v <= 100
    /\ (up = 0 -> v = 0)
    /\ (up = total -> v = 100).
Proof. apply percentage_bounds. Qed.

Lemma percentage_range_witness :
  (0 <= 23 <= 40) /\ 0 < 40
  /\ exists v, percentage 23 40 = Ok v /\ 0 <= v <= 100.
Proof.
  assert (H1 : 0 <= 23 <= 40) by lia.
  assert (H2 : 0 < 40) by lia.
  split; [exact H1|]. split; [exact H2|].
  destruct (percentage_range 23 40 H1 H2) as (v & Hv & Hr & _).
  exists v. split; [exact Hv | exact Hr].
Defined.

(** What the loop body of [get_availability_stats] stores for a list of
    checks, whatever the list. *)
Lemma stored_value checks :
  exists v,
    (let* a := availability checks in py_round a) = Ok v
    /\ 0 <= v <= 100
    /\ (List.filter is_up checks = [] -> v = 0)
    /\ (checks <> [] -> forallb is_up checks = true -> v = 100).
Proof.
  destruct checks as [|c checks].
  - exists 0. repeat split; try lia. by intros [].
  - set (cs := c :: checks).
    assert (Hne : cs <> []) by done.
    rewrite (availability_round cs Hne).
    assert (Htot : 0 < total_count cs) by (unfold total_count, cs; simpl length; lia).
    destruct (percentage_bounds _ _ (up_count_le cs) Htot) as (v & Hv & Hr & H0 & H100).
    exists v. split; [exact Hv|]. split; [exact Hr|]. split.
    + intros Hdown. apply H0. unfold up_count. by rewrite Hdown.
    + intros _ Hup. apply H100. unfold up_count, total_count.
      by rewrite (UrlFacts.filter_all _ _ Hup).
Qed.

Lemma stats_loop_total self items :
  forall acc,
    NoDup (map fst items) ->
    exists stats,
      stats_loop items acc self = (Ok stats, self)
      /\ (forall d c, In (d, c) items ->
            exists v, stats !! d = Some v
                      /\ (let* a := availability c in py_round a) = Ok v)
      /\ (forall d, ~ In d (map fst items) -> stats !! d = acc !! d).
Proof.
  induction items as [|[d0 c0] items IH]; intros acc Hnd.
  - exists acc. simpl. split; [reflexivity|]. split; [intros d c []|reflexivity].
  - apply NoDup_cons in Hnd as [Hd0 Hnd].
    destruct (stored_value c0) as (v0 & Hv0 & _).
    destruct (IH (<[d0 := v0]> acc) Hnd) as (stats & Hloop & Hin & Hout).
    exists stats. cbn [stats_loop]. unfold Method.bind, Method.eval.
    pose proof Hv0 as Hv0'.
    destruct (availability c0) as [a|x] eqn:Ha; simpl in Hv0; [|discriminate].
    rewrite Hv0.
    split; [exact Hloop|]. split.
    + intros d c [[= -> ->]|Hdc]; [|by apply Hin].
      exists v0. split; [|by rewrite Ha].
      rewrite Hout; [by rewrite lookup_insert_eq|].
      by rewrite <- list_elem_of_In.
    + intros d Hd. simpl in Hd.
      rewrite Hout by tauto. apply lookup_insert_ne. tauto.
Qed.

Lemma stats_of_any_state (self : HealthChecker) :
  exists stats,
    get_availability_stats self = (Ok stats, self)
    /\ (forall d, stats !! d = None <-> results self !! d = None)
    /\ (forall d checks, results self !! d = Some checks ->
          exists v,
            stats !! d = Some v
            /\ 0 <= v <= 100
            /\ (List.filter is_up checks = [] -> v = 0)
            /\ (checks <> [] -> forallb is_up checks = true -> v = 100)).
Proof.
  unfold get_availability_stats, Method.bind, Method.results_items.
  destruct (stats_loop_total self (map_to_list (results self)) ∅)
    as (stats & -> & Hin & Hout).
  { apply NoDup_fst_map_to_list. }
  assert (Hsome : forall d checks, results self !! d = Some checks ->
            exists v, stats !! d = Some v
                      /\ (let* a := availability checks in py_round a) = Ok v).
  { intros d checks Hd. apply Hin.
    rewrite <- list_elem_of_In. by apply elem_of_map_to_list. }
  assert (Hnone : forall d, results self !! d = None -> stats !! d = None).
  { intros d Hd. rewrite Hout; [done|].
    rewrite <- list_elem_of_In. intros Hd'.
    apply list_elem_of_fmap in Hd' as ([d' c] & -> & Hdc).
    apply elem_of_map_to_list in Hdc. simpl in Hd. congruence. }
  exists stats. split; [reflexivity|]. split.
  - intros d. split; [|apply Hnone].
    intros Hs. destruct (results self !! d) as [checks|] eqn:Hd; [|done].
    destruct (Hsome d checks Hd) as (v & Hv & _). congruence.
  - intros d checks Hd.
    destruct (Hsome d checks Hd) as (v & Hv & Hround).
    destruct (stored_value checks) as (v' & Hround' & Hr & H0 & H100).
    assert (v' = v) as -> by congruence.
    exists v. repeat split; try done; lia.
Qed.

(** ** One cycle, from the probes to the report *)






(** ** What a probe raises and when it is UP *)

(** X3. [check_endpoint] raises [x] in two cases only: the request was
    left by [x] and [x] is no [Exception] (a cancellation, an
    interrupt), or [get_domain] raises [x] on the url.  So where
    [get_domain] returns, nothing that derives from [Exception] ever
    leaves [check_endpoint]. *)
Theorem check_endpoint_raise_iff G self env e x :
  (snd (check_endpoint G self env e) = Raise x <->
     (session_request env (request_of self e) = Failure x /\ is_Exception x = false)
     \/ (get_domain e = Raise x
         /\ forall y, session_request env (request_of self e) = Failure y ->
                      is_Exception y = true))
  /\ (returns (get_domain e) ->
      snd (check_endpoint G self env e) = Raise x -> is_Exception x = false).
Proof.
  assert (Hiff : snd (check_endpoint G self env e) = Raise x <->
     (session_request env (request_of self e) = Failure x /\ is_Exception x = false)
     \/ (get_domain e = Raise x
         /\ forall y, session_request env (request_of self e) = Failure y ->
                      is_Exception y = true)).
  { unfold check_endpoint, check_endpoint_try. simpl.
    destruct (session_request env (request_of self e)) as [st now|y].
    - destruct (get_domain e) as [d|z] eqn:Hd; simpl.
      + split; [discriminate|]. intros [[H _] | [H _]]; discriminate.
      + destruct (is_Exception z); simpl; (split;
          [ intros [= ->]; right; split; [reflexivity|]; intros y Hy; discriminate
          | intros [[H _] | [H _]]; [discriminate|by injection H as ->] ]).
    - destruct (is_Exception y) eqn:Hy.
      + destruct (get_domain e) as [d|z] eqn:Hd; simpl.
        * split; [discriminate|]. intros [[H Hx] | [H _]]; [|discriminate].
          injection H as ->. congruence.
        * split.
          -- intros [= ->]. right. split; [reflexivity|]. intros y' [= <-]. exact Hy.
          -- intros [[H Hx] | [H _]]; [|by injection H as ->].
             injection H as ->. congruence.
      + split.
        * intros [= ->]. left. by split.
        * intros [[H _] | [_ H]]; [by injection H as ->|].
          specialize (H y eq_refl). congruence. }
  split; [exact Hiff|].
  intros [d Hd] Hraise. apply Hiff in Hraise as [[_ Hx] | [Hx _]]; [exact Hx|].
  congruence.
Qed.

(** X4. A result that [check_endpoint] returns is UP exactly when the
    request was answered, with a status from 200 to 299, and the elapsed
    time [(now - start) * 1000] is below 500 as a float.  A request that
    failed, whatever the failure, gives a result that is DOWN. *)
Theorem probe_up_iff G self env e r :
  snd (check_endpoint G self env e) = Ok r ->
  (is_up r = true <->
     exists st now,
       session_request env (request_of self e) = Response st now
       /\ 200 <= st < 300
       /\ Float.ltb (Float.mul (Float.sub now (start_clock env)) (Float.of_int 1000))
                    (Float.of_int 500) = true)
  /\ (forall x, session_request env (request_of self e) = Failure x ->
                is_up r = false).
Proof.
  intros Hr. apply check_endpoint_ok in Hr as (_ & _ & _ & [Hresp | Hfail]).
  - destruct Hresp as (st & now & Hreq & Hst & Hrt). split.
    + unfold is_up. rewrite Hst, Hrt, !andb_true_iff, Z.leb_le, Z.ltb_lt. split.
      * intros [[H1 H2] H3]. exists st, now. by repeat split.
      * intros (st' & now' & Hreq' & [H1 H2] & H3).
        rewrite Hreq in Hreq'. injection Hreq' as -> ->. by repeat split.
    + intros x Hx. congruence.
  - destruct Hfail as (x & Hreq & _ & Hst & Hrt).
    assert (Hdown : is_up r = false) by (unfold is_up; by rewrite Hst).
    split; [|intros; exact Hdown].
    rewrite Hdown. split; [discriminate|].
    intros (st & now & Hreq' & _). congruence.
Qed.

Lemma probe_up_iff_witness :
  exists r,
    snd (check_endpoint Sample.G Sample.checker (Sample.answers 200 0) Sample.orders) = Ok r
    /\ is_up r = true.
Proof.
  eexists. split; [vm_compute; reflexivity|].
  eapply (probe_up_iff Sample.G Sample.checker (Sample.answers 200 0) Sample.orders).
  - vm_compute; reflexivity.
  - eexists. eexists. split; [reflexivity|]. split; [lia|]. vm_compute; reflexivity.
Defined.

(** ** A cycle is all or nothing *)

Lemma probes_raise_iff G self :
  forall l env,
    (exists y, gather (map snd (imap (fun i e => check_endpoint G self (env i) e) l))
               = Raise y)
    <-> exists i e x, l !! i = Some e
                      /\ snd (check_endpoint G self (env i) e) = Raise x.
Proof.
  induction l as [|e l IH]; intros env.
  - simpl. split; [intros [y Hy]; discriminate|].
    intros (i & e & x & Hi & _). by rewrite lookup_nil in Hi.
  - rewrite imap_cons. cbn [map gather].
    change (imap ((fun i e' => check_endpoint G self (env i) e') ∘ S) l)
      with (imap (fun i e' => check_endpoint G self ((env ∘ S) i) e') l).
    specialize (IH (env ∘ S)).
    destruct (snd (check_endpoint G self (env 0%nat) e)) as [r|x] eqn:Hhead; cbn [py_bind].
    + split.
      * intros [y Hy].
        destruct (gather _) as [rs|z] eqn:Hg; simpl in Hy; [discriminate|].
        destruct (proj1 IH (ex_intro _ z eq_refl)) as (i & e' & x & Hi & Hx).
        exists (S i), e', x. by split.
      * intros (i & e' & x & Hi & Hx). destruct i as [|i].
        -- simpl in Hi. injection Hi as <-. congruence.
        -- destruct (proj2 IH) as [z Hz]; [by exists i, e', x|].
           rewrite Hz. simpl. by exists z.
    + split; [|intros _; by exists x].
      intros _. by exists 0%nat, e, x.
Qed.

(** X5. [check_all_endpoints] raises exactly when one of its probes
    raises.  The cycle then records nothing, not even the results of the
    probes that returned: [run] is left by the exception with the service
    and the output as they were before the cycle. *)
Theorem cycle_all_or_nothing G env (s : system) :
  ((exists y, check_all_endpoints G env (health_checker (service s)) = Raise y)
   <-> exists i e x,
         endpoints (health_checker (service s)) !! i = Some e
         /\ snd (check_endpoint G (health_checker (service s)) (env i) e) = Raise x)
  /\ (pc s = InCycle ->
      (exists y, check_all_endpoints G env (health_checker (service s)) = Raise y) ->
      service (advance G env s) = service s
      /\ printed (advance G env s) = printed s
      /\ exists y, pc (advance G env s) = Raised y).
Proof.
  assert (Hiff : (exists y, check_all_endpoints G env (health_checker (service s)) = Raise y)
    <-> exists y, gather (map snd (probes G (health_checker (service s)) env)) = Raise y).
  { unfold check_all_endpoints.
    destruct (gather _) as [rs|z]; simpl; split; intros [y Hy]; try discriminate;
      by exists z. }
  split.
  - rewrite Hiff. apply probes_raise_iff.
  - intros Hpc [y Hy]. unfold advance, run_check_cycle. rewrite Hpc, Hy. simpl.
    repeat split. by exists y.
Qed.

(** ** An endpoint whose url cannot be parsed *)

Lemma poisoned_cycle G env self e x :
  e ∈ endpoints self -> get_domain e = Raise x ->
  exists y, check_all_endpoints G env self = Raise y.
Proof.
  intros He Hx. apply list_elem_of_lookup in He as [i Hi].
  destruct (check_endpoint_raises G self (env i) e x Hx) as [z Hz].
  unfold check_all_endpoints, probes.
  destruct (proj2 (probes_raise_iff G self (endpoints self) env)) as [y Hy].
  { by exists i, e, z. }
  rewrite Hy. by exists y.
Qed.

(** X6. When [get_domain] raises on the url of one endpoint, no cycle
    ever completes: whatever the network does and whenever [stop] is
    called, nothing is recorded for any endpoint and nothing is printed,
    and the first cycle leaves [run] by an exception. *)
Theorem poisoned_configuration G eps e x :
  e ∈ eps -> get_domain e = Raise x ->
  (forall evs,
     printed (exec G evs (boot eps)) = []
     /\ health_checker (service (exec G evs (boot eps))) = HealthChecker_init eps)
  /\ forall env1 env2 env3,
       exists y, pc (exec G [Advance env1; Advance env2; Advance env3] (boot eps))
                 = Raised y.
Proof.
  intros He Hx.
  assert (Hstep : forall s ev,
    printed s = [] /\ health_checker (service s) = HealthChecker_init eps ->
    printed (step G s ev) = []
    /\ health_checker (service (step G s ev)) = HealthChecker_init eps).
  { intros s [env|] [Hp Hh]; simpl; [|by split].
    unfold advance. destruct (pc s); simpl; try (by split).
    - by destruct (running (service s)).
    - destruct (poisoned_cycle G env (health_checker (service s)) e x) as [y Hy].
      { by rewrite Hh. } { exact Hx. }
      unfold run_check_cycle. rewrite Hy. simpl. by split. }
  split.
  - intros evs. unfold exec.
    assert (Hgen : forall s,
      printed s = [] /\ health_checker (service s) = HealthChecker_init eps ->
      printed (fold_left (step G) evs s) = []
      /\ health_checker (service (fold_left (step G) evs s)) = HealthChecker_init eps).
    { induction evs as [|ev evs IH]; intros s Hs; simpl; [exact Hs|].
      apply IH. by apply Hstep. }
    apply Hgen. by split.
  - intros env1 env2 env3. unfold exec. simpl. unfold advance at 2 1. simpl.
    unfold advance. simpl.
    destruct (poisoned_cycle G env3 (HealthChecker_init eps) e x He Hx) as [y Hy].
    unfold run_check_cycle. simpl. rewrite Hy. simpl. by exists y.
Qed.

Lemma poisoned_configuration_witness :
  Sample.broken ∈ [Sample.orders; Sample.broken]
  /\ get_domain Sample.broken = Raise ValueError
  /\ printed (exec Sample.G
                [Advance (Sample.answers 200); Advance (Sample.answers 200);
                 Advance (Sample.answers 200); Advance (Sample.answers 200)]
                (boot [Sample.orders; Sample.broken])) = [].
Proof.
  assert (H1 : Sample.broken ∈ [Sample.orders; Sample.broken])
    by (apply list_elem_of_further, list_elem_of_here).
  assert (H2 : get_domain Sample.broken = Raise ValueError)
    by (vm_compute; reflexivity).
  split; [exact H1|]. split; [exact H2|].
  destruct (poisoned_configuration Sample.G _ _ _ H1 H2) as [Hquiet _].
  apply Hquiet.
Defined.

(** ** The history only grows *)

Lemma check_all_endpoints_inv G env self self' :
  check_all_endpoints G env self = Ok self' ->
  exists rs,
    cycle_results G env self = Ok rs
    /\ self' = {| endpoints := endpoints self;
                  results := fold_left record rs (results self);
                  timeout := timeout self |}.
Proof.
  unfold check_all_endpoints, cycle_results.
  destruct (gather _) as [rs|x]; simpl; [|discriminate].
  intros [= <-]. by exists rs.
Qed.

Lemma run_check_cycle_inv G env self svc stats :
  run_check_cycle G env self = Ok (svc, stats) ->
  exists hc,
    check_all_endpoints G env (health_checker self) = Ok hc
    /\ health_checker svc = hc
    /\ get_availability_stats hc = (Ok stats, hc)
    /\ running svc = running self
    /\ service_endpoints svc = service_endpoints self.
Proof.
  unfold run_check_cycle.
  destruct (check_all_endpoints G env (health_checker self)) as [hc|x];
    cbn [py_bind]; [|discriminate].
  rewrite get_availability_stats_frame.
  destruct (fst (get_availability_stats hc)) as [st|x] eqn:Hst;
    cbn [py_bind]; [|discriminate].
  intros [= <- <-]. exists hc. cbn [health_checker running service_endpoints].
  repeat split.
  rewrite (get_availability_stats_pair hc). by rewrite Hst.
Qed.

Lemma step_history_grows G s ev d :
  bucket (results (health_checker (service s))) d
    `prefix_of` bucket (results (health_checker (service (step G s ev)))) d
  /\ printed s `prefix_of` printed (step G s ev)
  /\ endpoints (health_checker (service (step G s ev)))
     = endpoints (health_checker (service s))
  /\ (cycles_started s <= cycles_started (step G s ev))%nat.
Proof.
  destruct ev as [env|]; simpl; [|by repeat split].
  unfold advance. destruct (pc s); simpl; try (by repeat split).
  - destruct (running (service s)); simpl; repeat split; try done; lia.
  - destruct (run_check_cycle G env (service s)) as [[svc stats]|x] eqn:Hc; simpl;
      [|by repeat split].
    apply run_check_cycle_inv in Hc as (hc & Hhc & -> & _).
    apply check_all_endpoints_inv in Hhc as (rs & _ & ->). simpl.
    repeat split; try done.
    + rewrite bucket_fold_record. by apply prefix_app_r.
    + by apply prefix_app_r.
Qed.

(** X7. Whatever happens — cycles that complete, cycles that raise,
    calls of [stop] — the history of every domain after it extends the
    history before it: no recorded result is dropped, changed or
    reordered.  The output and the number of cycles started only grow as
    well, and the list of endpoints never changes. *)
Theorem history_only_grows G evs :
  forall s d,
    bucket (results (health_checker (service s))) d
      `prefix_of` bucket (results (health_checker (service (exec G evs s)))) d
    /\ printed s `prefix_of` printed (exec G evs s)
    /\ endpoints (health_checker (service (exec G evs s)))
       = endpoints (health_checker (service s))
    /\ (cycles_started s <= cycles_started (exec G evs s))%nat.
Proof.
  unfold exec. induction evs as [|ev evs IH]; intros s d; simpl.
  - by repeat split.
  - destruct (step_history_grows G s ev d) as (H1 & H2 & H3 & H4).
    destruct (IH (step G s ev) d) as (H1' & H2' & H3' & H4').
    split; [by etrans|]. split; [by etrans|]. split; [congruence|lia].
Qed.

(** ** The loop *)

Lemma never_stopped_step G s env :
  pc s = NotStarted \/ (running (service s) = true /\ pc s <> Returned) ->
  running (service (advance G env s)) = true /\ pc (advance G env s) <> Returned.
Proof.
  unfold advance. intros [Hpc | [Hrun Hpc]].
  - rewrite Hpc. simpl. by split.
  - destruct (pc s) eqn:Hs; simpl; try (by split).
    + rewrite Hrun. by split.
    + destruct (run_check_cycle G env (service s)) as [[svc stats]|x] eqn:Hc; simpl;
        [|by split].
      apply run_check_cycle_inv in Hc as (_ & _ & _ & _ & Hr & _).
      split; [congruence|done].
    + by rewrite Hs.
Qed.

(** X8. [run] returns only if [stop] has been called: from the start of
    the service, a sequence of moves of [run] without any call of [stop]
    never ends in the state where [run] has returned. *)
Theorem run_returns_only_after_stop G eps evs :
  Forall (fun ev => ev <> Stop) evs ->
  pc (exec G evs (boot eps)) <> Returned.
Proof.
  intros Hevs.
  assert (Hgen : forall s,
    pc s = NotStarted \/ (running (service s) = true /\ pc s <> Returned) ->
    pc (exec G evs s) <> Returned).
  { unfold exec. induction Hevs as [|ev evs Hev _ IH]; intros s Hs; simpl.
    - destruct Hs as [-> | [_ Hs]]; done.
    - destruct ev as [env|]; [|done]. simpl.
      apply IH. right. by apply never_stopped_step. }
  apply Hgen. by left.
Qed.

Lemma run_returns_only_after_stop_witness :
  Forall (fun ev => ev <> Stop)
    [Advance (Sample.answers 200); Advance (Sample.answers 200);
     Advance (Sample.answers 200); Advance (Sample.answers 200)]
  /\ pc (exec Sample.G
           [Advance (Sample.answers 200); Advance (Sample.answers 200);
            Advance (Sample.answers 200); Advance (Sample.answers 200)]
           (boot [Sample.orders; Sample.users; Sample.home])) <> Returned.
Proof.
  assert (H : Forall (fun ev => ev <> Stop)
    [Advance (Sample.answers 200); Advance (Sample.answers 200);
     Advance (Sample.answers 200); Advance (Sample.answers 200)])
    by (repeat constructor; discriminate).
  split; [exact H|].
  exact (run_returns_only_after_stop Sample.G _ _ H).
Defined.

(** X9. A [stop] that arrives before [run] has started is lost: [run]
    sets the flag when it starts, so after any number of such calls the
    first two moves of [run] lead into the first cycle, with the flag
    set. *)
Theorem stop_before_run_is_lost G eps (n : nat) env1 env2 :
  let s := exec G (repeat Stop n ++ [Advance env1; Advance env2]) (boot eps) in
  pc s = InCycle
  /\ running (service s) = true
  /\ cycles_started s = 1%nat
  /\ s = exec G [Advance env1; Advance env2] (boot eps).
Proof.
  assert (Hstops : forall s,
    pc s = NotStarted -> advance G env1 (exec G (repeat Stop n) s) = advance G env1 s).
  { induction n as [|n IH]; intros s Hs; simpl; [done|].
    change (exec G (repeat Stop n) (step G s Stop)) with (exec G (repeat Stop n) (call_stop s)).
    rewrite IH by done. unfold advance, call_stop. simpl. by rewrite Hs. }
  simpl. unfold exec in *. rewrite fold_left_app. simpl.
  rewrite Hstops by done. by repeat split.
Qed.

(** X10. Counting from the start of the service, over any sequence of
    moves and calls of [stop]: the number of cycles started is the number
    of cycles completed, plus one while a cycle runs or after a cycle has
    raised.  So a cycle starts only when every earlier cycle has
    completed, and every completed cycle has printed exactly once. *)
Theorem cycles_do_not_overlap G eps evs :
  let s := exec G evs (boot eps) in
  cycles_started s
  = (cycles_completed s
     + match pc s with InCycle | Raised _ => 1 | _ => 0 end)%nat.
Proof.
  assert (Hgen : forall s,
    cycles_started s
    = (cycles_completed s + match pc s with InCycle | Raised _ => 1 | _ => 0 end)%nat ->
    cycles_started (exec G evs s)
    = (cycles_completed (exec G evs s)
       + match pc (exec G evs s) with InCycle | Raised _ => 1 | _ => 0 end)%nat).
  { unfold exec. induction evs as [|ev evs IH]; intros s Hs; simpl; [exact Hs|].
    apply IH. destruct ev as [env|]; simpl; [|exact Hs].
    unfold advance, cycles_completed in *. destruct (pc s) eqn:Hpc; simpl; try lia.
    - destruct (running (service s)); simpl; lia.
    - destruct (run_check_cycle G env (service s)) as [[svc stats]|x]; simpl;
        rewrite ?length_app; simpl; lia.
    - rewrite Hpc. lia.
    - rewrite Hpc. lia. }
  apply Hgen. reflexivity.
Qed.

(** X2. In every state, reachable or not, [get_availability_stats]
    returns a mapping and leaves the checker as it is.  The mapping has
    the keys of the history; each value is an integer from 0 to 100; it is
    0 for a list that is empty or holds no UP result, where nothing is
    divided, and 100 for a list that is not empty and all UP. *)
Theorem get_availability_stats_total (self : HealthChecker) :
  exists stats,
    get_availability_stats self = (Ok stats, self)
    /\ (forall d, stats !! d = None <-> results self !! d = None)
    /\ (forall d checks, results self !! d = Some checks ->
          exists v,
            stats !! d = Some v
            /\ 0 <= v <= 100
            /\ (List.filter is_up checks = [] -> v = 0)
            /\ (checks <> [] -> forallb is_up checks = true -> v = 100)).
Proof. apply stats_of_any_state. Qed.

(** ** What a completed cycle prints *)

Lemma recorded_bucket_nonempty rs :
  forall res r, r ∈ rs -> results_nonempty_at (fold_left record rs res) (domain r).
Proof.
  intros res r Hr. unfold results_nonempty_at.
  pose proof (bucket_fold_record rs res (domain r)) as Hb.
  destruct (fold_left record rs res !! domain r) as [c|] eqn:Hl.
  - exists c. split; [reflexivity|]. intros ->.
    unfold bucket in Hb. rewrite Hl in Hb. simpl in Hb.
    assert (Hin : In r (List.filter (domain_is (domain r)) rs)).
    { apply filter_In. split; [by apply list_elem_of_In|].
      unfold domain_is. by apply bool_decide_eq_true_2. }
    symmetry in Hb. apply app_eq_nil in Hb as [_ Hnil].
    rewrite Hnil in Hin. destruct Hin.
  - exfalso. unfold bucket in Hb. rewrite Hl in Hb. simpl in Hb.
    assert (Hin : In r (List.filter (domain_is (domain r)) rs)).
    { apply filter_In. split; [by apply list_elem_of_In|].
      unfold domain_is. by apply bool_decide_eq_true_2. }
    symmetry in Hb. apply app_eq_nil in Hb as [_ Hnil].
    rewrite Hnil in Hin. destruct Hin.
Qed.

(** X11. The statistics that a completed cycle prints are those of the
    history with the results of this very cycle in it.  Every endpoint
    has its domain in them, with a value from 0 to 100, and the domains
    printed are the keys of the history. *)
Theorem every_domain_reported G env self svc stats :
  run_check_cycle G env self = Ok (svc, stats) ->
  get_availability_stats (health_checker svc) = (Ok stats, health_checker svc)
  /\ (forall e, e ∈ endpoints (health_checker self) ->
        exists d v, get_domain e = Ok d /\ stats !! d = Some v /\ 0 <= v <= 100)
  /\ (forall d, stats !! d = None <-> results (health_checker svc) !! d = None).
Proof.
  intros Hc. apply run_check_cycle_inv in Hc as (hc & Hhc & -> & Hstats & _).
  split; [exact Hstats|].
  destruct (stats_of_any_state hc) as (stats' & Hstats' & Hkeys & Hvals).
  assert (stats' = stats) as -> by congruence.
  split; [|exact Hkeys].
  intros e He.
  apply check_all_endpoints_inv in Hhc as (rs & Hrs & ->). simpl in *.
  pose proof (gather_probes G (health_checker self) _ env rs Hrs) as Hprod.
  apply list_elem_of_lookup in He as [i Hi].
  destruct (Forall2_lookup_l _ _ _ _ _ Hprod Hi) as (r & Hr & [env' Hprobe]).
  apply check_endpoint_ok in Hprobe as (Hd & _).
  assert (Hin : r ∈ rs) by (apply list_elem_of_lookup; by exists i).
  destruct (recorded_bucket_nonempty rs (results (health_checker self)) r Hin)
    as (c & Hc & _).
  destruct (Hvals _ _ Hc) as (v & Hv & Hrange & _).
  exists (domain r), v. split; [exact Hd|]. split; [exact Hv|exact Hrange].
Qed.

Lemma every_domain_reported_witness :
  exists svc stats,
    run_check_cycle Sample.G (Sample.answers 200)
      (MonitoringService_init [Sample.orders; Sample.users; Sample.home])
    = Ok (svc, stats)
    /\ exists v, stats !! "www.example.org"%string = Some v /\ 0 <= v <= 100.
Proof.
  destruct (run_check_cycle Sample.G (Sample.answers 200)
              (MonitoringService_init [Sample.orders; Sample.users; Sample.home]))
    as [[svc stats]|x] eqn:Hrun.
  - exists svc, stats. split; [reflexivity|].
    destruct (every_domain_reported _ _ _ _ _ Hrun) as (_ & Hall & _).
    destruct (Hall Sample.home) as (d & v & Hd & Hv & Hr).
    { apply list_elem_of_further, list_elem_of_further, list_elem_of_here. }
    assert (d = "www.example.org"%string) as ->.
    { vm_compute in Hd. by injection Hd. }
    exists v. split; [exact Hv|exact Hr].
  - exfalso. vm_compute in Hrun. discriminate Hrun.
Defined.

(** ** Parsing the configuration *)

Lemma parse_item_config item c :
  Config.parse_item item = Config.Return c <-> item_config item c.
Proof.
  unfold Config.parse_item, item_config. split.
  - destruct item as [| | | | |l|d|]; try discriminate.
    destruct (dict_get "name" d) as [n|] eqn:Hn; [|discriminate].
    destruct (dict_get "url" d) as [u|] eqn:Hu; [|discriminate].
    intros [= <-]. by exists d, n, u.
  - intros (d & n & u & -> & Hn & Hu & ->). by rewrite Hn, Hu.
Qed.

Lemma parse_items_return items :
  forall acc cs,
    Forall2 item_config items cs ->
    Config.parse_items items acc = Config.Return (acc ++ cs).
Proof.
  induction items as [|item items IH]; intros acc cs Hcs.
  - apply Forall2_nil_inv_l in Hcs as ->. simpl. by rewrite app_nil_r.
  - apply Forall2_cons_inv_l in Hcs as (c & cs' & Hc & Hcs' & ->).
    apply parse_item_config in Hc. simpl. rewrite Hc.
    rewrite (IH _ _ Hcs'). by rewrite <- app_assoc.
Qed.

Lemma parse_items_cases items :
  forall acc,
    match Config.parse_items items acc with
    | Config.Return cfgs =>
        exists cs, cfgs = acc ++ cs /\ Forall2 item_config items cs
    | Config.Throw e =>
        exists good bad rest cs,
          items = good ++ bad :: rest
          /\ Forall2 item_config good cs
          /\ Config.parse_item bad = Config.Throw e
    end.
Proof.
  induction items as [|item items IH]; intros acc; simpl.
  - exists []. split; [by rewrite app_nil_r|constructor].
  - destruct (Config.parse_item item) as [c|e] eqn:Hitem.
    + apply parse_item_config in Hitem. specialize (IH (acc ++ [c])).
      destruct (Config.parse_items items (acc ++ [c])) as [cfgs|e].
      * destruct IH as (cs & -> & Hcs). exists (c :: cs).
        split; [by rewrite <- app_assoc|by constructor].
      * destruct IH as (good & bad & rest & cs & -> & Hgood & Hbad).
        exists (item :: good), bad, rest, (c :: cs).
        split; [reflexivity|]. split; [by constructor|exact Hbad].
    + exists [], item, items, []. split; [reflexivity|]. split; [constructor|exact Hitem].
Qed.

Lemma parse_items_throw good bad rest cs e :
  forall acc,
    Forall2 item_config good cs ->
    Config.parse_item bad = Config.Throw e ->
    Config.parse_items (good ++ bad :: rest) acc = Config.Throw e.
Proof.
  revert cs. induction good as [|item good IH]; intros cs acc Hgood Hbad; simpl.
  - by rewrite Hbad.
  - apply Forall2_cons_inv_l in Hgood as (c & cs' & Hc & Hcs' & ->).
    apply parse_item_config in Hc. rewrite Hc. by apply (IH cs').
Qed.

Lemma typed_all_minimal l :
  typed_all (map (fun nu => {| raw_name := PyStr (fst nu);
                                raw_url := PyStr (snd nu);
                                raw_method := PyStr "GET";
                                raw_headers := PyNone;
                                raw_body := PyNone |}) l)
  = Some (map minimal_endpoint l).
Proof. induction l as [|nu l IH]; simpl; [done|]. by rewrite IH. Qed.

Lemma minimal_items_config l :
  Forall2 item_config (map minimal_item l)
    (map (fun nu => {| raw_name := PyStr (fst nu);
                       raw_url := PyStr (snd nu);
                       raw_method := PyStr "GET";
                       raw_headers := PyNone;
                       raw_body := PyNone |}) l).
Proof.
  induction l as [|nu l IH]; simpl; constructor; [|exact IH].
  exists [(PyStr "name", PyStr (fst nu)); (PyStr "url", PyStr (snd nu))],
    (PyStr (fst nu)), (PyStr (snd nu)). by repeat split.
Qed.

Lemma parse_config_returns_helper (self : ConfigurationParser)
    (fs : string -> Config.load_outcome) cfgs :
  parse_config self fs = Config.Return cfgs <->
  exists items,
    fs (config_path self) = Config.Loaded (PyListV items)
    /\ Forall2 item_config items cfgs.
Proof.
  unfold parse_config. split.
  - destruct (fs (config_path self)) as [v| | | | |c]; try discriminate.
    destruct v as [| | | | |items|d|]; try discriminate.
    intros H. exists items. split; [reflexivity|].
    pose proof (parse_items_cases items []) as Hc. rewrite H in Hc.
    destruct Hc as (cs & -> & Hcs). exact Hcs.
  - intros (items & -> & Hcs). by rewrite (parse_items_return items [] cfgs Hcs).
Qed.

(** X12. [parse_config] returns exactly when the file holds a list
    whose every item is a dict with the keys "name" and "url"; it returns
    one object per item, in the order of the file, an empty list for an
    empty file list.  The default "GET" is used when the key "method" is
    absent, not when it is present with the value null.  A file whose
    items give a name and a url only yields GET endpoints without headers
    and without body. *)
Theorem parse_config_returns_iff (self : ConfigurationParser)
    (fs : string -> Config.load_outcome) :
  (forall cfgs,
     parse_config self fs = Config.Return cfgs <->
     exists items,
       fs (config_path self) = Config.Loaded (PyListV items)
       /\ Forall2 item_config items cfgs)
  /\ (forall cfgs items,
        fs (config_path self) = Config.Loaded (PyListV items) ->
        parse_config self fs = Config.Return cfgs ->
        length cfgs = length items)
  /\ (forall d c,
        Config.parse_item (PyDictV d) = Config.Return c ->
        (dict_get "method" d = None -> raw_method c = PyStr "GET")
        /\ (dict_get "method" d = Some PyNone ->
              raw_method c = PyNone /\ typed c = None))
  /\ (forall l,
        fs (config_path self) = Config.Loaded (PyListV (map minimal_item l)) ->
        exists cfgs,
          parse_config self fs = Config.Return cfgs
          /\ typed_all cfgs = Some (map minimal_endpoint l)).
Proof.
  assert (Hiff : forall cfgs,
     parse_config self fs = Config.Return cfgs <->
     exists items,
       fs (config_path self) = Config.Loaded (PyListV items)
       /\ Forall2 item_config items cfgs)
    by (intros cfgs; apply parse_config_returns_helper).
  split; [exact Hiff|]. split; [|split].
  - intros cfgs items Hfs Hret. apply Hiff in Hret as (items' & Hfs' & Hcs).
    rewrite Hfs in Hfs'. injection Hfs' as <-. symmetry. by eapply Forall2_length.
  - intros d c Hc. apply parse_item_config in Hc as (d' & n & u & [= <-] & _ & _ & ->).
    simpl. split.
    + by intros ->.
    + intros ->. split; [reflexivity|]. unfold typed. simpl.
      by destruct (str_of n), (str_of u).
  - intros l Hfs. eexists. split.
    + apply Hiff. exists (map minimal_item l). split; [exact Hfs|].
      apply minimal_items_config.
    + apply typed_all_minimal.
Qed.

Lemma parse_item_throw item e :
  Config.parse_item item = Config.Throw e ->
  (e = Config.TypeError /\ forall d, item <> PyDictV d)
  \/ (exists d, item = PyDictV d /\ e = Config.KeyError "name"
                /\ dict_get "name" d = None)
  \/ (exists d n, item = PyDictV d /\ e = Config.KeyError "url"
                  /\ dict_get "name" d = Some n /\ dict_get "url" d = None).
Proof.
  unfold Config.parse_item.
  destruct item as [| | | | |l|d|];
    try (intros [= <-]; left; split; [reflexivity|intros d; discriminate]).
  destruct (dict_get "name" d) as [n|] eqn:Hn.
  - destruct (dict_get "url" d) as [u|] eqn:Hu; [discriminate|].
    intros [= <-]. right. right. by exists d, n.
  - intros [= <-]. right. left. by exists d.
Qed.

(** An item raises [TypeError] or [KeyError] and nothing else. *)
Lemma parse_item_throw_class item e :
  Config.parse_item item = Config.Throw e ->
  e = Config.TypeError \/ exists key, e = Config.KeyError key.
Proof.
  intros H. apply parse_item_throw in H
    as [[-> _] | [(d & _ & -> & _) | (d & n & _ & -> & _)]]; eauto.
Qed.

(** Where an exception of [parse_config] comes from: the load, or the
    first item of the list that cannot be read. *)
Lemma parse_config_throw (self : ConfigurationParser)
    (fs : string -> Config.load_outcome) e :
  parse_config self fs = Config.Throw e ->
  match fs (config_path self) with
  | Config.Loaded (PyListV items) =>
      exists good bad rest cs,
        items = good ++ bad :: rest
        /\ Forall2 item_config good cs
        /\ Config.parse_item bad = Config.Throw e
  | Config.Loaded _ => e = Config.ValueError
  | Config.RaisesFileNotFoundError | Config.RaisesYAMLError => e = Config.SystemExit 1
  | Config.RaisesOSError => e = Config.OSError
  | Config.RaisesValueError => e = Config.ValueError
  | Config.RaisesOther c => e = Config.OtherError c
  end.
Proof.
  unfold parse_config.
  destruct (fs (config_path self)) as [v| | | | |c] eqn:Hfs;
    try (by intros [= <-]).
  destruct v as [| | | | |items|d|]; try (by intros [= <-]).
  intros H. pose proof (parse_items_cases items []) as Hc. rewrite H in Hc.
  destruct Hc as (good & bad & rest & cs & -> & Hgood & Hbad).
  by exists good, bad, rest, cs.
Qed.

(** X13. [parse_config] ends the process with status 1 for a missing
    file and for a YAML error, and for nothing else.  Every other
    exception of [open], of the reading and of [yaml.safe_load] leaves
    [parse_config] as it is.  [ValueError] leaves it in two cases only:
    the load raised it (a null character in the path, bytes that do not
    decode), or the file was loaded and does not hold a list.  In a
    list, the first item that is not a dict with "name" and "url"
    decides, whatever comes before and after it, and no list is
    returned: [TypeError] for an item that is not a dict, [KeyError] for
    "name" when that key is absent, for "url" when only that key is
    absent. *)
Theorem parse_config_errors (self : ConfigurationParser)
    (fs : string -> Config.load_outcome) :
  (forall code,
     parse_config self fs = Config.Throw (Config.SystemExit code) <->
     code = 1
     /\ (fs (config_path self) = Config.RaisesFileNotFoundError
         \/ fs (config_path self) = Config.RaisesYAMLError))
  /\ (parse_config self fs = Config.Throw Config.ValueError <->
        fs (config_path self) = Config.RaisesValueError
        \/ exists v, fs (config_path self) = Config.Loaded v
                     /\ forall items, v <> PyListV items)
  /\ (parse_config self fs = Config.Throw Config.OSError <->
        fs (config_path self) = Config.RaisesOSError)
  /\ (forall c,
        parse_config self fs = Config.Throw (Config.OtherError c) <->
        fs (config_path self) = Config.RaisesOther c)
  /\ (forall good bad rest cs e,
        fs (config_path self) = Config.Loaded (PyListV (good ++ bad :: rest)) ->
        Forall2 item_config good cs ->
        Config.parse_item bad = Config.Throw e ->
        parse_config self fs = Config.Throw e
        /\ (e = Config.TypeError /\ (forall d, bad <> PyDictV d)
            \/ (exists d, bad = PyDictV d /\ e = Config.KeyError "name"
                          /\ dict_get "name" d = None)
            \/ (exists d n, bad = PyDictV d /\ e = Config.KeyError "url"
                            /\ dict_get "name" d = Some n
                            /\ dict_get "url" d = None))).
Proof.
  assert (Hitem : forall e,
    parse_config self fs = Config.Throw e ->
    (forall items, fs (config_path self) <> Config.Loaded (PyListV items))
    \/ e = Config.TypeError \/ exists key, e = Config.KeyError key).
  { intros e H. pose proof (parse_config_throw self fs e H) as Hc.
    destruct (fs (config_path self)) as [v| | | | |c]; try (left; discriminate).
    destruct v as [| | | | |items|d|]; try (left; discriminate).
    destruct Hc as (good & bad & rest & cs & _ & _ & Hbad).
    right. by apply parse_item_throw_class in Hbad. }
  split; [|split; [|split; [|split]]].
  - intros code. split.
    + intros H. pose proof (parse_config_throw self fs _ H) as Hc.
      destruct (Hitem _ H) as [Hl | [[=] | [key [=]]]].
      destruct (fs (config_path self)) as [v| | | | |c]; try discriminate Hc.
      * destruct v as [| | | | |items|d|]; try discriminate Hc. by destruct (Hl items).
      * injection Hc as ->. split; [reflexivity|by left].
      * injection Hc as ->. split; [reflexivity|by right].
    + intros [-> [H | H]]; unfold parse_config; by rewrite H.
  - split.
    + intros H. pose proof (parse_config_throw self fs _ H) as Hc.
      destruct (Hitem _ H) as [Hl | [[=] | [key [=]]]].
      destruct (fs (config_path self)) as [v| | | | |c]; try discriminate Hc.
      * right. exists v. split; [reflexivity|].
        intros items ->. by destruct (Hl items).
      * by left.
    + intros [H | (v & Hv & Hnot)]; unfold parse_config.
      * by rewrite H.
      * rewrite Hv. destruct v as [| | | | |items|d|]; try reflexivity.
        by destruct (Hnot items).
  - split.
    + intros H. pose proof (parse_config_throw self fs _ H) as Hc.
      destruct (Hitem _ H) as [Hl | [[=] | [key [=]]]].
      destruct (fs (config_path self)) as [v| | | | |c]; try discriminate Hc;
        [|reflexivity].
      destruct v as [| | | | |items|d|]; try discriminate Hc. by destruct (Hl items).
    + intros H. unfold parse_config. by rewrite H.
  - intros c. split.
    + intros H. pose proof (parse_config_throw self fs _ H) as Hc.
      destruct (Hitem _ H) as [Hl | [[=] | [key [=]]]].
      destruct (fs (config_path self)) as [v| | | | |c']; try discriminate Hc.
      * destruct v as [| | | | |items|d|]; try discriminate Hc. by destruct (Hl items).
      * by injection Hc as ->.
    + intros H. unfold parse_config. by rewrite H.
  - intros good bad rest cs e Hfs Hgood Hbad. split.
    + unfold parse_config. rewrite Hfs.
      by apply (parse_items_throw good bad rest cs).
    + by apply parse_item_throw.
Qed.

(** ** Starting the program *)

(** X14. [main] gets as far as running the service exactly when it has
    one argument besides the program name and the file of that name
    parses; the file read is the one named by that argument.  It ends the
    process with status 1 exactly for a wrong number of arguments, a
    missing file or a YAML error; every other defect of the
    configuration leaves [main] as an exception that is not caught. *)
Theorem main_startup_outcomes (argv : list string)
    (fs : string -> Config.load_outcome) :
  (forall cfgs,
     main_startup argv fs = Config.Return cfgs <->
     exists prog path items,
       argv = [prog; path]
       /\ fs path = Config.Loaded (PyListV items)
       /\ Forall2 item_config items cfgs)
  /\ (forall code,
        main_startup argv fs = Config.Throw (Config.SystemExit code) <->
        code = 1
        /\ (length argv <> 2%nat
            \/ exists prog path,
                 argv = [prog; path]
                 /\ (fs path = Config.RaisesFileNotFoundError
                     \/ fs path = Config.RaisesYAMLError)))
  /\ (forall fs', length argv <> 2%nat -> main_startup argv fs' = main_startup argv fs).
Proof.
  split; [|split].
  - intros cfgs. unfold main_startup.
    destruct argv as [|prog [|path [|extra argv]]];
      try (split; [discriminate|intros (p & q & items & [=] & _)]).
    split.
    + intros H. apply parse_config_returns_helper in H as (items & Hfs & Hcs).
      by exists prog, path, items.
    + intros (p & q & items & [= -> ->] & Hfs & Hcs).
      apply parse_config_returns_helper. by exists items.
  - intros code. unfold main_startup.
    destruct argv as [|prog [|path [|extra argv]]];
      try (split;
            [ intros [= <-]; split; [reflexivity|left; simpl; lia]
            | intros [-> _]; reflexivity ]).
    split.
    + intros H. pose proof (parse_config_throw _ fs _ H) as Hc.
      cbn [config_path] in Hc.
      destruct (fs path) as [v| | | | |c] eqn:Hfs; try discriminate Hc.
      * destruct v as [| | | | |items|d|]; try discriminate Hc.
        destruct Hc as (good & bad & rest & cs & _ & _ & Hbad).
        apply parse_item_throw_class in Hbad as [[=] | [key [=]]].
      * injection Hc as ->. split; [reflexivity|]. right.
        exists prog, path. split; [reflexivity|by left].
      * injection Hc as ->. split; [reflexivity|]. right.
        exists prog, path. split; [reflexivity|by right].
    + intros [-> [Hlen | (p & q & [= <- <-] & H)]]; [simpl in Hlen; lia|].
      unfold parse_config. simpl. by destruct H as [-> | ->].
  - intros fs' Hlen. unfold main_startup.
    destruct argv as [|prog [|path [|extra argv]]]; try reflexivity.
    simpl in Hlen. lia.
Qed.

(** ** The domain, for any text between the slashes *)

Module UrlTextFacts.
Import Url UrlShape UrlText.







Lemma lstrip_no_slash l :
  forallb (fun c => negb (is_char slash c)) l = true ->
  forallb (fun c => negb (is_char slash c)) (lstrip l) = true.
Proof.
  induction l as [|c l IH]; simpl; [done|].
  intros [Hc Hl]%andb_prop. destruct (is_c0_or_space c); [by apply IH|].
  simpl. by rewrite Hc, Hl.
Qed.

Lemma filter_no_slash (p : ascii -> bool) l :
  forallb (fun c => negb (is_char slash c)) l = true ->
  forallb (fun c => negb (is_char slash c)) (List.filter p l) = true.
Proof.
  induction l as [|c l IH]; simpl; [done|].
  intros [Hc Hl]%andb_prop. destruct (p c); simpl; rewrite ?Hc; by apply IH.
Qed.

Lemma split_at_no_slash p l a b :
  forallb (fun c => negb (is_char slash c)) l = true ->
  split_at p l = Some (a, b) ->
  forallb (fun c => negb (is_char slash c)) b = true.
Proof.
  revert a b. induction l as [|c l IH]; intros a b; simpl; [discriminate|].
  intros [Hc Hl]%andb_prop. destruct (p c).
  - by intros [= <- <-].
  - destruct (split_at p l) as [[a' b']|]; [|discriminate].
    intros [= <- <-]. by apply (IH a').
Qed.

Lemma netloc_chars_no_slash l :
  forallb (fun c => negb (is_char slash c)) l = true ->
  netloc_chars l = Ok [].
Proof.
  intros Hl. unfold netloc_chars.
  set (u := List.filter _ (lstrip l)).
  assert (Hu : forallb (fun c => negb (is_char slash c)) u = true)
    by (apply filter_no_slash, lstrip_no_slash, Hl).
  assert (Hs : forallb (fun c => negb (is_char slash c)) (strip_scheme u) = true).
  { unfold strip_scheme.
    destruct (split_at (is_char colon) u) as [[[|c s] rest]|] eqn:Hsplit; try exact Hu.
    destruct (is_alpha c && forallb is_scheme_char (c :: s)); [|exact Hu].
    by apply (split_at_no_slash _ _ _ _ Hu Hsplit). }
  destruct (strip_scheme u) as [|c1 [|c2 rest]]; try reflexivity.
  simpl in Hs. apply andb_prop in Hs as [Hc1 _].
  apply negb_true_iff in Hc1. by rewrite Hc1.
Qed.
End UrlTextFacts.



(** X16. A url without any '/' — a bare host name, host:port — has the
    empty string as its domain: all such endpoints are filed under the
    one key that is the empty string. *)
Theorem get_domain_without_slash (e : EndpointConfig) :
  forallb (fun c => negb (Url.is_char Url.slash c)) (list_ascii_of_string (url e)) = true ->
  get_domain e = Ok EmptyString.
Proof.
  intros H. unfold get_domain, Url.netloc.
  by rewrite (UrlTextFacts.netloc_chars_no_slash _ H).
Qed.

Lemma get_domain_without_slash_witness :
  forallb (fun c => negb (Url.is_char Url.slash c))
    (list_ascii_of_string (url Fixture.bare)) = true
  /\ get_domain Fixture.bare = Ok EmptyString.
Proof.
  split; [reflexivity|].
  exact (get_domain_without_slash Fixture.bare eq_refl).
Defined.
